(** * LuminaDB: the DDL round-trip engine of [luminadb/query_builder/table_creation.py]

    A shallow embedding of the generator ([extract_table_creations]) and of the
    parser ([basic_extract], [extract_table]), with the part of Python they
    rest on: text, [shlex] in its default (non-POSIX) mode, dictionaries that
    keep insertion order, and exceptions as an error result. *)

From Stdlib Require Import String Ascii List ZArith Lia Bool.
From stdpp Require Import base option strings gmap list pretty.
Import ListNotations.

Local Open Scope string_scope.

(** ** Exceptions *)

Module Py.

(** The exceptions the embedded code can raise. *)
Inductive exn : Type :=
  | IndexError
  | KeyError (key : string)
  | ValueError (msg : string)
  | TypeError.

Inductive result (A : Type) : Type :=
  | Ok (a : A)
  | Raise (e : exn).
Arguments Ok {A} a.
Arguments Raise {A} e.

Definition bind {A B} (r : result A) (k : A -> result B) : result B :=
  match r with
  | Ok a => k a
  | Raise e => Raise e
  end.

Definition is_ok {A} (r : result A) : bool :=
  match r with Ok _ => true | Raise _ => false end.

End Py.
Export Py.

Notation "'let*' x ':=' r 'in' k" := (Py.bind r (fun x => k))
  (at level 10, x pattern, r at level 100, k at level 200).

(** ** Python text

    A [str] is modelled as a [string] whose characters are code points below
    256. *)

Module Str.

Definition code (c : ascii) : nat := nat_of_ascii c.

Definition between (lo hi : nat) (c : ascii) : bool :=
  (lo <=? code c)%nat && (code c <=? hi)%nat.

(** [str.lower] on one character: A-Z, and the Latin-1 capitals. *)
Definition lower_char (c : ascii) : ascii :=
  if between 65 90 c then ascii_of_nat (code c + 32)
  else if between 192 222 c && negb (code c =? 215)%nat then ascii_of_nat (code c + 32)
  else c.

Fixpoint lower (s : string) : string :=
  match s with
  | EmptyString => EmptyString
  | String c s' => String (lower_char c) (lower s')
  end.

Fixpoint drop (n : nat) (s : string) : string :=
  match n, s with
  | O, _ => s
  | S n', String _ s' => drop n' s'
  | S _, EmptyString => EmptyString
  end.

Fixpoint take (n : nat) (s : string) : string :=
  match n, s with
  | S n', String c s' => String c (take n' s')
  | _, _ => EmptyString
  end.

(** [s[start:-1]] for [start >= 0]. *)
Definition slice_to_last (start : nat) (s : string) : string :=
  take (String.length s - 1 - start) (drop start s).

(** [s[1:-1]]. *)
Definition strip_ends (s : string) : string := slice_to_last 1 s.

(** [s.find(c)] for a one-character [c]: the first index, or -1. *)
Fixpoint find_from (c : ascii) (s : string) (i : Z) : Z :=
  match s with
  | EmptyString => (-1)%Z
  | String a s' => if Ascii.eqb a c then i else find_from c s' (i + 1)%Z
  end.
Definition find (c : ascii) (s : string) : Z := find_from c s 0%Z.

(** [s.split(c)]: every separator cuts, empty pieces are kept. *)
Fixpoint split (c : ascii) (s : string) : list string :=
  match s with
  | EmptyString => [EmptyString]
  | String a s' =>
      if Ascii.eqb a c then EmptyString :: split c s'
      else match split c s' with
           | h :: t => String a h :: t
           | [] => [String a EmptyString]
           end
  end.

(** [s.startswith(p)]. *)
Fixpoint startswith (p s : string) : bool :=
  match p, s with
  | EmptyString, _ => true
  | String a p', String b s' => Ascii.eqb a b && startswith p' s'
  | String _ _, EmptyString => false
  end.

(** [sep.join(l)]. *)
Fixpoint join (sep : string) (l : list string) : string :=
  match l with
  | [] => EmptyString
  | [x] => x
  | x :: rest => x ++ sep ++ join sep rest
  end.

(** The first character, for [s[0]]. *)
Definition head (s : string) : result ascii :=
  match s with
  | EmptyString => Raise IndexError
  | String c _ => Ok c
  end.

Definition nonempty (s : string) : bool :=
  match s with EmptyString => false | _ => true end.

End Str.

(** ** Python lists *)

Module PyList.

(** [l[i]] with Python's negative indices. *)
Definition get {A} (l : list A) (i : Z) : result A :=
  let j := if (i <? 0)%Z then (i + Z.of_nat (length l))%Z else i in
  if (j <? 0)%Z then Raise IndexError
  else match nth_error l (Z.to_nat j) with
       | Some x => Ok x
       | None => Raise IndexError
       end.

(** [l.index(x)] for text: the first position of [x]. *)
Fixpoint index_from (x : string) (l : list string) (i : Z) : result Z :=
  match l with
  | [] => Raise (ValueError "not in list")
  | y :: l' => if String.eqb y x then Ok i else index_from x l' (i + 1)%Z
  end.
Definition index (x : string) (l : list string) : result Z := index_from x l 0%Z.

(** [x in l]. *)
Definition mem (x : string) (l : list string) : bool :=
  existsb (String.eqb x) l.

(** [l[i:i+2]] for [i >= 0]. *)
Definition slice2 {A} (l : list A) (i : nat) : list A := firstn 2 (skipn i l).

End PyList.

(** ** [shlex.shlex(text)], non-POSIX mode

    The standard library's lexer with its defaults: word characters are the
    ASCII letters, digits and the underscore; blanks separate tokens; a
    quoted span keeps its quotes and is one token (or is glued to the word it
    follows); [#] starts a comment that runs to the end of the line; any
    other character is a token of its own. *)

Module Shlex.

Definition is_whitespace (c : ascii) : bool :=
  Ascii.eqb c " " || Ascii.eqb c "009" || Ascii.eqb c "013" || Ascii.eqb c "010".

Definition is_wordchar (c : ascii) : bool :=
  Str.between 97 122 c || Str.between 65 90 c || Str.between 48 57 c
  || Ascii.eqb c "_".

Definition is_quote (c : ascii) : bool :=
  Ascii.eqb c "'" || Ascii.eqb c "034".

Definition is_commenter (c : ascii) : bool := Ascii.eqb c "#".

(** The lexer's [state]: [' '], ['a'], or the open quote character; a
    comment remembers the state it returns to ([readline] does not change
    it). *)
Inductive state : Type :=
  | Blank
  | Word
  | Quoted (q : ascii)
  | CommentIn (back : bool).  (* [true]: back to [Word], token kept *)

Definition snoc (tok : string) (c : ascii) : string := tok ++ String c EmptyString.

(** [lex st tok input]: the tokens read from [input] starting in state [st]
    with [tok] the token under construction. *)
Fixpoint lex (st : state) (tok : string) (input : string) : result (list string) :=
  match input with
  | EmptyString =>
      match st with
      | Blank | CommentIn false => Ok []
      | Word | CommentIn true => Ok [tok]
      | Quoted _ => Raise (ValueError "No closing quotation")
      end
  | String c rest =>
      match st with
      | Blank =>
          if is_whitespace c then lex Blank EmptyString rest
          else if is_commenter c then lex (CommentIn false) EmptyString rest
          else if is_wordchar c then lex Word (String c EmptyString) rest
          else if is_quote c then lex (Quoted c) (String c EmptyString) rest
          else let* toks := lex Blank EmptyString rest in Ok (String c EmptyString :: toks)
      | Word =>
          if is_whitespace c then
            let* toks := lex Blank EmptyString rest in Ok (tok :: toks)
          else if is_commenter c then lex (CommentIn true) tok rest
          else if is_wordchar c || is_quote c then lex Word (snoc tok c) rest
          else
            (* pushed back, and returned as the next token *)
            let* toks := lex Blank EmptyString rest in
            Ok (tok :: String c EmptyString :: toks)
      | Quoted q =>
          if Ascii.eqb c q then
            let* toks := lex Blank EmptyString rest in Ok (snoc tok c :: toks)
          else lex (Quoted q) (snoc tok c) rest
      | CommentIn back =>
          if Ascii.eqb c "010" then lex (if back then Word else Blank) tok rest
          else lex (CommentIn back) tok rest
      end
  end.

(** [list(shlex(text))]. *)
Definition shlex (text : string) : result (list string) := lex Blank EmptyString text.

End Shlex.


(** ** Values of a column default

    [Column.default] is any Python value; the ones with an exact textual
    form are modelled. *)

Module PyVal.

Inductive t : Type :=
  | None_
  | Bool (b : bool)
  | Int (z : Z)
  | Text (s : string).

(** Truth value, as [if value:] tests it. *)
Definition truthy (v : t) : bool :=
  match v with
  | None_ => false
  | Bool b => b
  | Int z => negb (z =? 0)%Z
  | Text s => Str.nonempty s
  end.

Definition hex_digit (n : nat) : ascii :=
  if (n <? 10)%nat then ascii_of_nat (48 + n) else ascii_of_nat (87 + n).

Fixpoint contains (c : ascii) (s : string) : bool :=
  match s with
  | EmptyString => false
  | String a s' => Ascii.eqb a c || contains c s'
  end.

(** One character of [repr(text)] inside the quotes [q]. *)
Definition repr_char (q : ascii) (c : ascii) : string :=
  let one := String c EmptyString in
  if Ascii.eqb c q || Ascii.eqb c "\" then String "\" one
  else if Ascii.eqb c "009" then "\t"
  else if Ascii.eqb c "010" then "\n"
  else if Ascii.eqb c "013" then "\r"
  else if (Str.code c <? 32)%nat || (Str.code c =? 127)%nat
          || Str.between 128 160 c || (Str.code c =? 173)%nat
       then String "\" (String "x" (String (hex_digit (Str.code c / 16))
                                     (String (hex_digit (Str.code c mod 16)) EmptyString)))
  else one.

Fixpoint repr_body (q : ascii) (s : string) : string :=
  match s with
  | EmptyString => EmptyString
  | String c s' => repr_char q c ++ repr_body q s'
  end.

(** [repr(text)]: single quotes, unless the text has a single quote and no
    double quote. *)
Definition repr_text (s : string) : string :=
  let q : ascii := if contains "'" s && negb (contains "034" s) then "034"%char else "'"%char in
  String q (repr_body q s) ++ String q EmptyString.

(** [repr(value)]. *)
Definition repr (v : t) : string :=
  match v with
  | None_ => "None"
  | Bool true => "True"
  | Bool false => "False"
  | Int z => pretty z
  | Text s => repr_text s
  end.

End PyVal.

(** ** Column descriptors *)

Module Column.

(** Modelled from the spec: the [Column] class ([luminadb/column.py]) is not
    among the sources. A descriptor holds the attributes of the data model;
    the foreign-key target is the optional pair of source table and source
    column. *)
Record t : Type := mk {
  name : string;
  type : string;
  nullable : bool;
  unique : bool;
  primary : bool;
  auto_increment : bool;
  default : PyVal.t;
  reference : option (string * string);
  on_delete : string;
  on_update : string;
}.

(** Modelled from the spec: [Column.raw_source], the target as one text
    [table/column], absent without a target. *)
Definition raw_source (c : t) : option string :=
  match reference c with
  | Some (tb, col) => Some (tb ++ "/" ++ col)
  | None => None
  end.

(** Modelled from the spec: [Column.source], the target's table. *)
Definition source (c : t) : string :=
  match reference c with Some (tb, _) => tb | None => "None" end.

(** Modelled from the spec: [Column.source_column], the target's column. *)
Definition source_column (c : t) : string :=
  match reference c with Some (_, col) => col | None => "None" end.

(** [Column.foreign]: the descriptor carries a target. *)
Definition foreign (c : t) : bool :=
  match reference c with Some _ => true | None => false end.

End Column.

(** Truth value of an optional text ([None] and the empty text are false). *)
Definition truthy_opt (o : option string) : bool :=
  match o with
  | Some s => Str.nonempty s
  | None => false
  end.

(** ** The generator *)

Section Generator.

(** [DEFAULT_MAPPINGS] and [SQL_ACTIONS] are tables of
    [luminadb/query_builder/utils.py], which is not among the sources: the
    generator is embedded over any value of them. *)
Variable DEFAULT_MAPPINGS : gmap string string.
Variable SQL_ACTIONS : gmap string string.

(** [dict.get(key, fallback)]. *)
Definition dict_get (m : gmap string string) (key fallback : string) : string :=
  match m !! key with
  | Some v => v
  | None => fallback
  end.

(** [d.update(other)]: every entry of [other] is written into [d]. *)
Definition dict_update (d other : gmap string string) : gmap string string :=
  map_fold (fun k v acc => <[k := v]> acc) d other.

Definition _iterate_sql_action (action : string) : string :=
  dict_get SQL_ACTIONS action action.

(** A dictionary is true when it has an entry. *)
Definition dict_truthy (m : gmap string string) : bool :=
  negb (bool_decide (m = ∅)).

Definition _get_type_mappings (type_mappings : option (gmap string string))
  : gmap string string :=
  let maps := DEFAULT_MAPPINGS in
  match type_mappings with
  | Some tm => if dict_truthy tm then dict_update maps tm else maps
  | None => maps
  end.

Definition _process_column_constraints
    (column : Column.t) (ctype : string) (primary_count : nat) : string :=
  let constraints := " " ++ Column.name column ++ " " ++ ctype in
  let constraints :=
    if negb (Column.nullable column) then constraints ++ " not null" else constraints in
  let constraints :=
    if Column.unique column then constraints ++ " unique" else constraints in
  let constraints :=
    if PyVal.truthy (Column.default column)
    then constraints ++ " default " ++ PyVal.repr (Column.default column)
    else constraints in
  if Column.primary column && (primary_count =? 1)%nat then
    let constraints := constraints ++ " primary key" in
    if Column.auto_increment column then constraints ++ " autoincrement"
    else constraints
  else constraints.

(** The loop of [_iterate_etbc_step1]: the text is threaded through, and the
    two lists the caller passed in are appended to in place. *)
Fixpoint _iterate_etbc_step1
    (columns : list Column.t) (string_ : string)
    (primaries foreigns : list Column.t)
    (maps : gmap string string) (primary_count : nat)
  : string * list Column.t * list Column.t :=
  match columns with
  | [] => (string_, primaries, foreigns)
  | column :: rest =>
      let ctype := dict_get maps (Column.type column) (Column.type column) in
      let string_ := string_ ++ _process_column_constraints column ctype primary_count in
      let foreigns :=
        if truthy_opt (Column.raw_source column) then (foreigns ++ [column])%list else foreigns in
      let primaries :=
        if Column.primary column then
          if negb (primary_count =? 1)%nat then (primaries ++ [column])%list else primaries
        else primaries in
      let string_ := string_ ++ "," in
      _iterate_etbc_step1 rest string_ primaries foreigns maps primary_count
  end.

(** The state of a [TableCreationExtractor]. *)
Record TableCreationExtractor : Type := mkExtractor {
  columns : list Column.t;
  type_mappings : gmap string string;
  primaries : list Column.t;
  foreigns : list Column.t;
  string_ : string;
}.

Definition init (cols : list Column.t) (tm : option (gmap string string))
  : TableCreationExtractor :=
  {| columns := cols;
     type_mappings := _get_type_mappings tm;
     primaries := [];
     foreigns := [];
     string_ := "" |}.

Definition process_columns (self : TableCreationExtractor) : TableCreationExtractor :=
  let primary_count := length (filter (fun col => Column.primary col = true) (columns self)) in
  let '(s, ps, fs) :=
    _iterate_etbc_step1 (columns self) (string_ self) (primaries self) (foreigns self)
                        (type_mappings self) primary_count in
  {| columns := columns self; type_mappings := type_mappings self;
     primaries := ps; foreigns := fs; string_ := s |}.

(** The clause [add_primary_keys] appends for a non-empty list. *)
Definition primary_key_clause (ps : list Column.t) : string :=
  " primary key (" ++ Str.join ", " (map Column.name ps) ++ "),".

Definition add_primary_keys (self : TableCreationExtractor) : TableCreationExtractor :=
  match primaries self with
  | [] => self
  | _ :: _ =>
      {| columns := columns self; type_mappings := type_mappings self;
         primaries := primaries self; foreigns := foreigns self;
         string_ := string_ self ++ primary_key_clause (primaries self) |}
  end.

(** The clause [add_foreign_keys] appends for one column. *)
Definition foreign_key_clause (column : Column.t) : string :=
  " foreign key (" ++ Column.name column ++ ") references "
    ++ Column.source column ++ " (" ++ Column.source_column column ++ ")"
    ++ " on delete " ++ _iterate_sql_action (Column.on_delete column)
    ++ " on update " ++ _iterate_sql_action (Column.on_update column) ++ ",".

Definition add_foreign_keys (self : TableCreationExtractor) : TableCreationExtractor :=
  {| columns := columns self; type_mappings := type_mappings self;
     primaries := primaries self; foreigns := foreigns self;
     string_ := fold_left (fun s column => s ++ foreign_key_clause column)
                          (foreigns self) (string_ self) |}.

Definition extract (self : TableCreationExtractor) : string :=
  let self := process_columns self in
  let self := add_primary_keys self in
  let self := add_foreign_keys self in
  Str.strip_ends (string_ self).

Definition extract_table_creations
    (cols : list Column.t) (tm : option (gmap string string)) : string :=
  extract (init cols tm).

End Generator.

Definition extract_single_column (column : Column.t) : string :=
  let foreign := Column.foreign column in
  let primary := Column.primary column in
  let string_ := Column.name column ++ " " ++ Column.type column in
  let string_ := if negb (Column.nullable column) then string_ ++ " not null" else string_ in
  let string_ := if Column.unique column then string_ ++ " unique" else string_ in
  let string_ :=
    if PyVal.truthy (Column.default column)
    then string_ ++ " default " ++ PyVal.repr (Column.default column) else string_ in
  let string_ := if primary then string_ ++ "primary key" else string_ in
  if foreign then
    string_ ++ "foreign key references " ++ Column.source column
            ++ " (" ++ Column.source_column column ++ ")"
  else string_.

(** ** The parser *)

(** The list [basic_extract] stores per column:
    [[name, type_, foreign, source, primary, unique, nullable, default]],
    followed by what [extract_table] appends to it. *)
Record row : Type := mkRow {
  r_name : string;
  r_type : string;
  r_foreign : bool;
  r_source : option string;
  r_primary : bool;
  r_unique : bool;
  r_nullable : bool;
  r_default : option string;
  r_appended : list string;
}.

(** The dictionary [upheld]: keys in first-insertion order. *)
Module Upheld.

Abbreviation t := (list (string * row)).

(** [upheld[key]]. *)
Fixpoint get (u : t) (key : string) : result row :=
  match u with
  | [] => Raise (KeyError key)
  | (k, v) :: u' => if String.eqb k key then Ok v else get u' key
  end.

(** [upheld[key] = v]: a known key keeps its place. *)
Fixpoint set (u : t) (key : string) (v : row) : t :=
  match u with
  | [] => [(key, v)]
  | (k, w) :: u' => if String.eqb k key then (k, v) :: u' else (k, w) :: set u' key v
  end.

(** [f(upheld[key])] in place, for the item assignments and the appends. *)
Definition update (u : t) (key : string) (f : row -> row) : result t :=
  let* v := get u key in Ok (set u key (f v)).

Definition values (u : t) : list row := map snd u.

End Upheld.

(** What the token loop of [basic_extract] has assigned so far. *)
Record inline : Type := mkInline {
  i_defaults : option string;
  i_sources : option (string * string);
  i_primary : bool;
  i_foreign : bool;
  i_notnull : bool;
  i_unique : bool;
}.

Definition inline0 : inline := mkInline None None false false false false.

(** One pass of [for token in base_columns]. *)
Definition inline_token (base_columns : list string) (token : string) (st : inline)
  : result inline :=
  let token_lowered := Str.lower token in
  let* st :=
    if String.eqb token_lowered "defaults" then
      let* i := PyList.index token base_columns in
      let* defaults := PyList.get base_columns (i + 1) in
      let* c0 := Str.head defaults in
      let defaults :=
        if negb (Ascii.eqb c0 "034") || negb (Ascii.eqb c0 "'")
        then defaults else Str.strip_ends defaults in
      Ok (mkInline (Some defaults) (i_sources st) (i_primary st) (i_foreign st)
                   (i_notnull st) (i_unique st))
    else Ok st in
  let st :=
    if String.eqb token_lowered "primary"
    then mkInline (i_defaults st) (i_sources st) true (i_foreign st) (i_notnull st) (i_unique st)
    else st in
  let st :=
    if String.eqb token_lowered "foreign"
    then mkInline (i_defaults st) (i_sources st) (i_primary st) true (i_notnull st) (i_unique st)
    else st in
  let* st :=
    if String.eqb token_lowered "reference" then
      let* i := PyList.index token base_columns in
      let tb_index := (i + 1)%Z in
      let tb_col := (tb_index + 1)%Z in
      let* tb := PyList.get base_columns tb_index in
      let* col := PyList.get base_columns tb_col in
      Ok (mkInline (i_defaults st) (Some (tb, Str.strip_ends col)) (i_primary st)
                   (i_foreign st) (i_notnull st) (i_unique st))
    else Ok st in
  let* st :=
    if String.eqb token_lowered "null" then
      let* i := PyList.index token base_columns in
      let* before := PyList.get base_columns (i - 1) in
      Ok (mkInline (i_defaults st) (i_sources st) (i_primary st) (i_foreign st)
                   (String.eqb (Str.lower before) "not") (i_unique st))
    else Ok st in
  Ok (if String.eqb token_lowered "unique"
      then mkInline (i_defaults st) (i_sources st) (i_primary st) (i_foreign st)
                    (i_notnull st) true
      else st).

Fixpoint inline_tokens (base_columns tokens : list string) (st : inline) : result inline :=
  match tokens with
  | [] => Ok st
  | token :: rest =>
      let* st := inline_token base_columns token st in
      inline_tokens base_columns rest st
  end.

(** The list stored for a column once its tokens are read. *)
Definition row_of_inline (name type_ : string) (st : inline) : row :=
  {| r_name := name;
     r_type := type_;
     r_foreign := i_foreign st;
     r_source := match i_sources st with
                 | Some (tb, col) => Some (tb ++ "/" ++ col)
                 | None => None
                 end;
     r_primary := i_primary st;
     r_unique := i_unique st;
     r_nullable := negb (i_notnull st);
     r_default := match i_defaults st with
                  | Some d => if Str.nonempty d then Some d else None
                  | None => None
                  end;
     r_appended := [] |}.

(** The list stored for a fragment of exactly two tokens. *)
Definition bare_row (name type_ : string) : row :=
  mkRow name type_ false None false false true None [].

(** [table_creation[table_creation.find("(") + 1 : -1]]. *)
Definition body_of (table_creation : string) : string :=
  Str.slice_to_last (Z.to_nat (Str.find "(" table_creation + 1)) table_creation.

Section Parser.

(** [_SQLITETYPES] ([luminadb/locals.py]) is not among the sources; only
    membership in it is used. *)
Variable SQLITETYPES : gset string.

(** The loop of [basic_extract] over the comma-separated fragments; [break]
    returns what is stored so far. *)
Fixpoint basic_extract_loop (constrs : list string) (upheld : Upheld.t) : result Upheld.t :=
  match constrs with
  | [] => Ok upheld
  | constr :: rest =>
      let* base_columns := Shlex.shlex constr in
      let* second := PyList.get base_columns 1 in
      if negb (bool_decide (second ∈ SQLITETYPES)) then Ok upheld
      else
        let* name := PyList.get base_columns 0 in
        let type_ := second in
        if (length base_columns =? 2)%nat then
          basic_extract_loop rest (Upheld.set upheld name (bare_row name type_))
        else
          let* st := inline_tokens base_columns base_columns inline0 in
          basic_extract_loop rest (Upheld.set upheld name (row_of_inline name type_ st))
  end.

Definition basic_extract (table_creation : string) : result (list Column.t * Upheld.t) :=
  let data := body_of table_creation in
  let cols : list Column.t := [] in
  let* upheld := basic_extract_loop (Str.split "," data) [] in
  Ok (cols, upheld).

(** [filter_extraction] ([luminadb/query_builder/utils.py]) is not among
    the sources. [extract_table] takes from it the dictionary of wrapped
    spans and the text in which they are replaced by their keys. *)
Variable filter_extraction :
  string -> list string -> list string * gmap string string * string.

(** The constructor call [Column( *upheld_column)] of the last loop. *)
Variable Column_of_row : row -> result Column.t.

(** [name[1:-1]] when [name] starts with a quote. *)
Definition unquote (name : string) : string :=
  if Str.startswith "'" name || Str.startswith (String "034" EmptyString) name
  then Str.strip_ends name else name.

(** [paren_wrap[key]]. *)
Definition wrap_get (paren_wrap : gmap string string) (key : string) : result string :=
  match paren_wrap !! key with
  | Some v => Ok v
  | None => Raise (KeyError key)
  end.

(** The group that follows a keyword at [tindex]:
    [paren_wrap[str_wrap] if str_wrap.startswith(":wrap") else str_wrap]. *)
Definition wrap_after (paren_wrap : gmap string string)
    (column_shlexed : list string) (tindex : nat) : result string :=
  let next_ := (tindex + 2)%nat in
  let str_wrap := Str.join "" (PyList.slice2 column_shlexed next_) in
  if Str.startswith ":wrap" str_wrap then wrap_get paren_wrap str_wrap
  else Ok str_wrap.

Definition names_of_wrap (wrap : string) : list string :=
  if Str.startswith "(" wrap then Str.split "," (Str.strip_ends wrap)
  else Str.split "," wrap.

(** [{n for n, v in upheld.items() if v[4]}]. *)
Definition inline_primaries (upheld : Upheld.t) : gset string :=
  list_to_set (map fst (filter (fun kv => r_primary (snd kv) = true) upheld)).

Definition table_level (names : list string) : gset string :=
  list_to_set (map unquote names).

Definition set_primary (r : row) : row :=
  mkRow (r_name r) (r_type r) (r_foreign r) (r_source r) true (r_unique r)
        (r_nullable r) (r_default r) (r_appended r).

(** [for name in names: upheld[key][4] = True]. *)
Fixpoint mark_primaries (names : list string) (upheld : Upheld.t) : result Upheld.t :=
  match names with
  | [] => Ok upheld
  | name :: rest =>
      let* upheld := Upheld.update upheld (unquote name) set_primary in
      mark_primaries rest upheld
  end.

Definition conflict : exn :=
  ValueError "Conflicting primary key definitions: inline and table-level differ".

(** The branch [if tl == "primary"], up to its [break]. *)
Definition on_primary (paren_wrap : gmap string string)
    (column_shlexed : list string) (tindex : nat) (upheld : Upheld.t) : result Upheld.t :=
  let* wrap := wrap_after paren_wrap column_shlexed tindex in
  let names := names_of_wrap wrap in
  if negb (bool_decide (inline_primaries upheld = ∅)) then
    if negb (bool_decide (inline_primaries upheld = table_level names))
    then Raise conflict
    else Ok upheld
  else mark_primaries names upheld.

Definition set_foreign (sources : string) (r : row) : row :=
  mkRow (r_name r) (r_type r) true (Some sources) (r_primary r) (r_unique r)
        (r_nullable r) (r_default r) (r_appended r).

Definition append_action (action : string) (r : row) : row :=
  mkRow (r_name r) (r_type r) (r_foreign r) (r_source r) (r_primary r) (r_unique r)
        (r_nullable r) (r_default r) (r_appended r ++ [action])%list.

(** [if kw in column_shlexed: upheld[name].append(column_shlexed[index + 1])]. *)
Definition record_action (kw : string) (column_shlexed : list string)
    (name : string) (upheld : Upheld.t) : result Upheld.t :=
  if PyList.mem kw column_shlexed then
    let* i := PyList.index kw column_shlexed in
    let* _ := Upheld.get upheld name in
    let* action := PyList.get column_shlexed (i + 1) in
    Upheld.update upheld name (append_action action)
  else Ok upheld.

(** The branch [if tl == "foreign"]. *)
Definition on_foreign (paren_wrap : gmap string string)
    (column_shlexed : list string) (tindex : nat) (upheld : Upheld.t) : result Upheld.t :=
  let next_ := (tindex + 2)%nat in
  let* wrap := wrap_after paren_wrap column_shlexed tindex in
  let name := if Str.startswith "(" wrap then Str.strip_ends wrap else wrap in
  let tb_index := (next_ + 3)%nat in
  let tb_col := (tb_index + 1)%nat in
  let* key := PyList.get column_shlexed (Z.of_nat (tb_col + 1)) in
  let* target := wrap_get paren_wrap (":" ++ key) in
  let source_col_str := Str.strip_ends target in
  let* tb := PyList.get column_shlexed (Z.of_nat tb_index) in
  let sources := tb ++ "/" ++ source_col_str in
  let* upheld := Upheld.update upheld name (set_foreign sources) in
  let* upheld := record_action "delete" column_shlexed name upheld in
  record_action "update" column_shlexed name upheld.

(** [for tindex, token in enumerate(column_shlexed)], from position
    [tindex] on. *)
Fixpoint scan_clause (paren_wrap : gmap string string) (column_shlexed : list string)
    (tindex : nat) (tokens : list string) (upheld : Upheld.t) : result Upheld.t :=
  match tokens with
  | [] => Ok upheld
  | token :: rest =>
      let tl := Str.lower token in
      if String.eqb tl "primary" then on_primary paren_wrap column_shlexed tindex upheld
      else
        let* upheld :=
          if String.eqb tl "foreign" then on_foreign paren_wrap column_shlexed tindex upheld
          else Ok upheld in
        scan_clause paren_wrap column_shlexed (S tindex) rest upheld
  end.

(** [for column_string in filtered.split(",")]. *)
Fixpoint scan_clauses (paren_wrap : gmap string string) (clauses : list string)
    (upheld : Upheld.t) : result Upheld.t :=
  match clauses with
  | [] => Ok upheld
  | column_string :: rest =>
      let* column_shlexed := Shlex.shlex column_string in
      let* upheld := scan_clause paren_wrap column_shlexed 0 column_shlexed upheld in
      scan_clauses paren_wrap rest upheld
  end.

(** [for _, upheld_column in upheld.items(): cols.append(Column( *upheld_column))]. *)
Fixpoint build_columns (cols : list Column.t) (rows : list row) : result (list Column.t) :=
  match rows with
  | [] => Ok cols
  | r :: rest =>
      let* c := Column_of_row r in
      build_columns (cols ++ [c])%list rest
  end.

Definition extract_table (table_creation : string) : result (list Column.t) :=
  let data := body_of table_creation in
  let* phase1 := basic_extract table_creation in
  let '(cols, upheld) := phase1 in
  let* shlexed := Shlex.shlex data in
  let '(_, paren_wrap, filtered) := filter_extraction data shlexed in
  let* upheld := scan_clauses paren_wrap (Str.split "," filtered) upheld in
  build_columns cols (Upheld.values upheld).

End Parser.

(** ** The parts of the repository that are not among the sources *)

Module Absent.

Section Constructor.

(** Which type names the constructor takes for an integer type, and the
    referential action of a descriptor built without one, are not given by
    the sources. *)
Variable is_integer_type : string -> bool.
Variable default_action : string.

Definition split_reference (foreign_ref : string) : option (string * string) :=
  match Str.split "/" foreign_ref with
  | [tb; col] => Some (tb, col)
  | _ => None
  end.

(** Modelled from the spec: the constructor of [Column]
    ([luminadb/column.py], not among the sources). [auto_increment] is valid
    only on a primary column of integer type; any other combination fails at
    construction with a [ValueError], the exception the constructor test
    expects. *)
Definition Column_init
    (name type_ : string) (foreign : bool) (foreign_ref : option string)
    (primary unique nullable : bool) (default : PyVal.t)
    (on_delete on_update : option string) (auto_increment : bool)
  : result Column.t :=
  if auto_increment && (negb (is_integer_type type_) || negb primary) then
    Raise (ValueError "auto_increment needs an integer primary key column")
  else
    Ok {| Column.name := name;
          Column.type := type_;
          Column.nullable := nullable;
          Column.unique := unique;
          Column.primary := primary;
          Column.auto_increment := auto_increment;
          Column.default := default;
          Column.reference :=
            if foreign then
              match foreign_ref with
              | Some r => split_reference r
              | None => None
              end
            else None;
          Column.on_delete := from_option id default_action on_delete;
          Column.on_update := from_option id default_action on_update |}.

(** [Column( *upheld_column)]: the stored list as positional arguments, the
    appended actions landing on [on_delete] and [on_update], and a third one
    on [auto_increment], where it counts as true when it is not empty; a
    fourth is one positional argument too many. *)
Definition Column_of_row (r : row) : result Column.t :=
  let default :=
    match r_default r with
    | Some d => PyVal.Text d
    | None => PyVal.None_
    end in
  let call := Column_init (r_name r) (r_type r) (r_foreign r) (r_source r)
                          (r_primary r) (r_unique r) (r_nullable r) default in
  match r_appended r with
  | [] => call None None false
  | [d] => call (Some d) None false
  | [d; u] => call (Some d) (Some u) false
  | [d; u; a] => call (Some d) (Some u) (Str.nonempty a)
  | _ => Raise TypeError
  end.

End Constructor.

(** The scanner behind [filter_extraction]: outside a span, inside
    parentheses nested [depth] deep, or inside quotes. *)
Inductive mode : Type :=
  | Outside
  | InParen (depth : nat)
  | InQuote (q : ascii).

Definition wrap_key (k : nat) : string := ":wrap" ++ pretty k.

Fixpoint wrap_scan (input : string) (m : mode) (span : string)
    (keys : list string) (paren_wrap : gmap string string) (out : string)
  : list string * gmap string string * string :=
  match input with
  | EmptyString => (keys, paren_wrap, out ++ span)
  | String c rest =>
      let close span :=
        let key := wrap_key (length keys) in
        wrap_scan rest Outside EmptyString (keys ++ [key])%list
                  (<[key := span]> paren_wrap) (out ++ key) in
      match m with
      | Outside =>
          if Ascii.eqb c "(" then
            wrap_scan rest (InParen 1) (String c EmptyString) keys paren_wrap out
          else if Shlex.is_quote c then
            wrap_scan rest (InQuote c) (String c EmptyString) keys paren_wrap out
          else wrap_scan rest Outside EmptyString keys paren_wrap (Shlex.snoc out c)
      | InParen depth =>
          if Ascii.eqb c "(" then
            wrap_scan rest (InParen (S depth)) (Shlex.snoc span c) keys paren_wrap out
          else if Ascii.eqb c ")" then
            match depth with
            | S (S d) => wrap_scan rest (InParen (S d)) (Shlex.snoc span c) keys paren_wrap out
            | _ => close (Shlex.snoc span c)
            end
          else wrap_scan rest (InParen depth) (Shlex.snoc span c) keys paren_wrap out
      | InQuote q =>
          if Ascii.eqb c q then close (Shlex.snoc span c)
          else wrap_scan rest (InQuote q) (Shlex.snoc span c) keys paren_wrap out
      end
  end.

(** Modelled from the spec: [filter_extraction]
    ([luminadb/query_builder/utils.py], not among the sources), the
    Lexer/Paren-Wrapper. Every parenthesized span, whatever it nests, and
    every quoted span becomes one placeholder; the result is the placeholder
    keys in order of appearance, the table from each key to the original
    span text with its enclosing parentheses or quotes, and the text with the
    spans replaced by their keys. An unclosed span is left as it is. *)
Definition filter_extraction (text : string) (shlexed : list string)
  : list string * gmap string string * string :=
  wrap_scan text Outside EmptyString [] ∅ EmptyString.

(** Modelled from the spec: [_SQLITETYPES], the type names of the dialect. *)
Definition SQLITETYPES : gset string :=
  {[ "null"; "integer"; "real"; "text"; "blob" ]}.

(** Modelled from the spec: [DEFAULT_MAPPINGS], in which a type name of the
    dialect stands for itself. *)
Definition DEFAULT_MAPPINGS : gmap string string :=
  list_to_map [("null", "null"); ("integer", "integer"); ("real", "real");
               ("text", "text"); ("blob", "blob")].

(** Modelled from the spec: [SQL_ACTIONS], the spellings of the referential
    actions. *)
Definition SQL_ACTIONS : gmap string string :=
  list_to_map [("restrict", "restrict"); ("cascade", "cascade");
               ("set null", "set null"); ("set default", "set default");
               ("no action", "no action")].

Definition is_integer_type (type_ : string) : bool := String.eqb type_ "integer".

End Absent.

(** The generator and the parser over the modelled parts. *)
Definition generate (cols : list Column.t) : string :=
  extract_table_creations Absent.DEFAULT_MAPPINGS Absent.SQL_ACTIONS cols None.

Definition parse (table_creation : string) : result (list Column.t) :=
  extract_table Absent.SQLITETYPES Absent.filter_extraction
    (Absent.Column_of_row Absent.is_integer_type "cascade") table_creation.

(** [create table t (<body>)]. *)
Definition create_table (body : string) : string := "create table t (" ++ body ++ ")".

(** * Definitions for the properties *)

(** The spec's reading of the type-mapping table: the caller's entry wins,
    then the default mapping, then the name itself. *)
Definition resolve_type_spec (DEFAULT_MAPPINGS : gmap string string)
    (override : option (gmap string string)) (type_ : string) : string :=
  match override ≫= (fun o => o !! type_) with
  | Some v => v
  | None =>
      match DEFAULT_MAPPINGS !! type_ with
      | Some v => v
      | None => type_
      end
  end.

(** A column with its type replaced. *)
Definition retype (f : string -> string) (c : Column.t) : Column.t :=
  {| Column.name := Column.name c;
     Column.type := f (Column.type c);
     Column.nullable := Column.nullable c;
     Column.unique := Column.unique c;
     Column.primary := Column.primary c;
     Column.auto_increment := Column.auto_increment c;
     Column.default := Column.default c;
     Column.reference := Column.reference c;
     Column.on_delete := Column.on_delete c;
     Column.on_update := Column.on_update c |}.

(** After the column loop, what the generator returns depends on the text
    and on the two lists only. *)
Definition finish (SA : gmap string string) (s : string) (ps fs : list Column.t) : string :=
  Str.strip_ends
    (fold_left (fun s column => s ++ foreign_key_clause SA column) fs
       (match ps with
        | [] => s
        | _ :: _ => s ++ primary_key_clause ps
        end)).

(** A clause of the body: a column definition with or without the inline
    primary-key marker, the table-level primary key, a foreign key. *)
Inductive clause : Type :=
  | ColumnDef (column : Column.t) (ctype : string) (inline_pk : bool)
  | TablePrimaryKey (ps : list Column.t)
  | TableForeignKey (column : Column.t).

Definition column_text (c : Column.t) (ctype : string) : string :=
  " " ++ Column.name c ++ " " ++ ctype
    ++ (if negb (Column.nullable c) then " not null" else "")
    ++ (if Column.unique c then " unique" else "")
    ++ (if PyVal.truthy (Column.default c)
        then " default " ++ PyVal.repr (Column.default c) else "").

Definition inline_text (c : Column.t) : string :=
  " primary key" ++ (if Column.auto_increment c then " autoincrement" else "").

(** The text of a clause, with the comma that closes it. *)
Definition render (SA : gmap string string) (cl : clause) : string :=
  match cl with
  | ColumnDef c ctype pk => column_text c ctype ++ (if pk then inline_text c else "") ++ ","
  | TablePrimaryKey ps => primary_key_clause ps
  | TableForeignKey c => foreign_key_clause SA c
  end.

Definition concat_text (l : list string) : string := fold_right String.append "" l.

Definition primary_count (cols : list Column.t) : nat :=
  length (filter (fun col => Column.primary col = true) cols).

Definition has_target (c : Column.t) : Prop := truthy_opt (Column.raw_source c) = true.

Definition column_defs (maps : gmap string string) (pc : nat) (cols : list Column.t)
  : list clause :=
  map (fun c => ColumnDef c (dict_get maps (Column.type c) (Column.type c))
                          (Column.primary c && (pc =? 1)%nat)) cols.

Definition table_primary_key (pc : nat) (cols : list Column.t) : list clause :=
  if (2 <=? pc)%nat then [TablePrimaryKey (filter (fun col => Column.primary col = true) cols)]
  else [].

Definition table_foreign_keys (cols : list Column.t) : list clause :=
  map TableForeignKey (filter has_target cols).

(** The spec's algorithm (section 4.2): one definition per column in input
    order, then one table-level primary key when two or more columns are
    primary, then one foreign key per column that carries a target. *)
Definition clauses_spec (maps : gmap string string) (cols : list Column.t) : list clause :=
  (column_defs maps (primary_count cols) cols
   ++ table_primary_key (primary_count cols) cols
   ++ table_foreign_keys cols)%list.

Definition is_primary_key_clause (cl : clause) : bool :=
  match cl with
  | ColumnDef _ _ pk => pk
  | TablePrimaryKey _ => true
  | TableForeignKey _ => false
  end.

Definition primary_key_clauses (cls : list clause) : nat :=
  length (filter (fun cl => is_primary_key_clause cl = true) cls).

(** A fragment that [basic_extract] reads as a column and stores: it
    tokenizes, its second token is a type name, and its tokens are read
    without an exception. *)
Definition reads_as_column (T : gset string) (constr : string) : bool :=
  match Shlex.shlex constr with
  | Ok toks =>
      match PyList.get toks 1 with
      | Ok second =>
          bool_decide (second ∈ T)
          && ((length toks =? 2)%nat || is_ok (inline_tokens toks toks inline0))
      | Raise _ => false
      end
  | Raise _ => false
  end.

(** The default [basic_extract] records for the column [name]. *)
Definition recorded_default (T : gset string) (table_creation name : string)
  : result (option string) :=
  let* phase1 := basic_extract T table_creation in
  let* r := Upheld.get (snd phase1) name in
  Ok (r_default r).

(** A token that reads as one of the two keywords the scan reacts to. *)
Definition is_keyword (token : string) : bool :=
  String.eqb (Str.lower token) "primary" || String.eqb (Str.lower token) "foreign".

(** A disequality of finite sets of names, settled by computing. *)
Ltac differ_by_computation :=
  let H := fresh in
  let H' := fresh in
  intros H; pose proof (bool_decide_eq_true_2 _ H) as H'; vm_compute in H'; discriminate H'.

(** An equality of finite sets of names, settled by computing. *)
Ltac agree_by_computation :=
  refine (bool_decide_eq_true_1 _ _); vm_compute; reflexivity.

Module Sample.

(** A nullable column with no constraint. *)
Definition plain (name type_ : string) : Column.t :=
  Column.mk name type_ true false false false PyVal.None_ None "cascade" "cascade".

(** [Column("a", "text", default="x")]. *)
Definition with_default : Column.t :=
  Column.mk "a" "text" true false false false (PyVal.Text "x") None "cascade" "cascade".

(** [Column("id", "integer", primary=True)]. *)
Definition sole_primary : Column.t :=
  Column.mk "id" "integer" true false true false PyVal.None_ None "cascade" "cascade".

(** [Column("a", "integer", primary=True)], [Column("b", "integer", primary=True)]. *)
Definition key_a : Column.t :=
  Column.mk "a" "integer" true false true false PyVal.None_ None "cascade" "cascade".
Definition key_b : Column.t :=
  Column.mk "b" "integer" true false true false PyVal.None_ None "cascade" "cascade".

(** [Column("u", "integer", foreign=True, foreign_ref="users/id",
    on_delete="cascade", on_update="restrict")]. *)
Definition user_ref : Column.t :=
  Column.mk "u" "integer" true false false false PyVal.None_ (Some ("users", "id"))
            "cascade" "restrict".

(** [Column("n", "text", nullable=False, unique=True)]. *)
Definition strict : Column.t :=
  Column.mk "n" "text" false true false false PyVal.None_ None "cascade" "cascade".

End Sample.

Definition pyval_eqb (v w : PyVal.t) : bool :=
  match v, w with
  | PyVal.None_, PyVal.None_ => true
  | PyVal.Bool a, PyVal.Bool b => Bool.eqb a b
  | PyVal.Int a, PyVal.Int b => (a =? b)%Z
  | PyVal.Text a, PyVal.Text b => String.eqb a b
  | _, _ => false
  end.

(** The comparison of the round-trip property: names, types, the primary,
    unique and nullable flags, defaults, and foreign-key references. *)
Definition same_descriptor (c d : Column.t) : bool :=
  String.eqb (Column.name c) (Column.name d)
  && String.eqb (Column.type c) (Column.type d)
  && Bool.eqb (Column.primary c) (Column.primary d)
  && Bool.eqb (Column.unique c) (Column.unique d)
  && Bool.eqb (Column.nullable c) (Column.nullable d)
  && pyval_eqb (Column.default c) (Column.default d)
  && bool_decide (Column.reference c = Column.reference d).

Fixpoint same_descriptors (cs ds : list Column.t) : bool :=
  match cs, ds with
  | [], [] => true
  | c :: cs', d :: ds' => same_descriptor c d && same_descriptors cs' ds'
  | _, _ => false
  end.

(** [Parse(Generate(C))] is a list equal to [C] under that comparison. *)
Definition round_trips (cols : list Column.t) : bool :=
  match parse (create_table (generate cols)) with
  | Ok cols' => same_descriptors cols cols'
  | Raise _ => false
  end.

(** The inline primary columns Phase 1 finds. *)
Definition phase1_primaries (table_creation : string) : result (gset string) :=
  let* phase1 := basic_extract Absent.SQLITETYPES table_creation in
  Ok (inline_primaries (snd phase1)).

Definition same_names (found : result (gset string)) (names : list string) : bool :=
  match found with
  | Ok s => bool_decide (s = list_to_set names)
  | Raise _ => false
  end.

(** The default stored for each column, in order. *)
Definition defaults_of (u : Upheld.t) : list (string * option string) :=
  map (fun kv => (fst kv, r_default (snd kv))) u.

(** The text of a clause written out, with the comma that closes it. *)
Definition clause_text (SA : gmap string string) (cl : clause) : string :=
  match cl with
  | ColumnDef c ctype inline_pk =>
      " " ++ Column.name c ++ " " ++ ctype
        ++ (if Column.nullable c then "" else " not null")
        ++ (if Column.unique c then " unique" else "")
        ++ (if PyVal.truthy (Column.default c)
            then " default " ++ PyVal.repr (Column.default c) else "")
        ++ (if inline_pk
            then " primary key" ++ (if Column.auto_increment c then " autoincrement" else "")
            else "")
        ++ ","
  | TablePrimaryKey ps =>
      " primary key (" ++ Str.join ", " (map Column.name ps) ++ "),"
  | TableForeignKey c =>
      " foreign key (" ++ Column.name c ++ ") references "
        ++ Column.source c ++ " (" ++ Column.source_column c ++ ")"
        ++ " on delete " ++ dict_get SA (Column.on_delete c) (Column.on_delete c)
        ++ " on update " ++ dict_get SA (Column.on_update c) (Column.on_update c) ++ ","
  end.

(** The clauses of the spec's algorithm with every column type resolved as
    the spec reads the type-mapping table. *)
Definition resolved_clauses (DM : gmap string string)
    (override : option (gmap string string)) (cols : list Column.t) : list clause :=
  (map (fun c => ColumnDef c (resolve_type_spec DM override (Column.type c))
                           (Column.primary c && (primary_count cols =? 1)%nat)) cols
   ++ table_primary_key (primary_count cols) cols
   ++ table_foreign_keys cols)%list.

(** ** Definitions for the further properties *)

(** A column with its [auto_increment] cleared. *)
Definition without_auto_increment (c : Column.t) : Column.t :=
  {| Column.name := Column.name c;
     Column.type := Column.type c;
     Column.nullable := Column.nullable c;
     Column.unique := Column.unique c;
     Column.primary := Column.primary c;
     Column.auto_increment := false;
     Column.default := Column.default c;
     Column.reference := Column.reference c;
     Column.on_delete := Column.on_delete c;
     Column.on_update := Column.on_update c |}.

(** [auto_increment] kept on the sole primary column only. *)
Definition effective_auto_increment (pc : nat) (c : Column.t) : Column.t :=
  if Column.primary c && (pc =? 1)%nat then c else without_auto_increment c.

(** A column whose default, when it is false as a truth value, is replaced
    by [None]. *)
Definition effective_default (c : Column.t) : Column.t :=
  if PyVal.truthy (Column.default c) then c
  else {| Column.name := Column.name c;
          Column.type := Column.type c;
          Column.nullable := Column.nullable c;
          Column.unique := Column.unique c;
          Column.primary := Column.primary c;
          Column.auto_increment := Column.auto_increment c;
          Column.default := PyVal.None_;
          Column.reference := Column.reference c;
          Column.on_delete := Column.on_delete c;
          Column.on_update := Column.on_update c |}.

(** [self.string] when [extract] takes its slice. *)
Definition accumulated_text (DM SA : gmap string string) (cols : list Column.t)
    (override : option (gmap string string)) : string :=
  string_ (add_foreign_keys SA (add_primary_keys (process_columns (init DM cols override)))).

(** The keys of [upheld], in order. *)
Definition keys_of (u : Upheld.t) : list string := map fst u.

(** What Phase 1 guarantees of every stored column: it is stored under its
    name, its type is a type name, and nothing is appended to it yet. *)
Definition stored_by_phase1 (T : gset string) (kv : string * row) : Prop :=
  r_name (snd kv) = fst kv /\ r_type (snd kv) ∈ T /\ r_appended (snd kv) = [].

(** The part of a stored column that only Phase 1 writes. *)
Definition frame_of (r : row) : string * string * bool * bool * option string :=
  (r_name r, r_type r, r_unique r, r_nullable r, r_default r).

Definition frames (u : Upheld.t) : list (string * (string * string * bool * bool * option string)) :=
  map (fun kv => (fst kv, frame_of (snd kv))) u.

(** A clause that tokenizes and in which no token reads [primary] or
    [foreign]. *)
Definition plain_clause (column_string : string) : bool :=
  match Shlex.shlex column_string with
  | Ok toks => forallb (fun t => negb (is_keyword t)) toks
  | Raise _ => false
  end.

(** The tokens of a table-level foreign-key clause with both actions, the
    two groups replaced by the placeholders [:k1] and [:k2]. *)
Definition foreign_key_tokens (k1 tb k2 on_delete on_update : string) : list string :=
  ["foreign"; "key"; ":"; k1; "references"; tb; ":"; k2;
   "on"; "delete"; on_delete; "on"; "update"; on_update].

(** A token that is neither [delete] nor [update]. *)
Definition not_an_action_keyword (t : string) : bool :=
  negb (String.eqb t "delete") && negb (String.eqb t "update").

(** Every character of a text satisfies [p]. *)
Fixpoint all_chars (p : ascii -> bool) (s : string) : bool :=
  match s with
  | EmptyString => true
  | String c s' => p c && all_chars p s'
  end.

(** A non-empty text of word characters: one token for the lexer. *)
Definition is_word (w : string) : bool :=
  Str.nonempty w && all_chars Shlex.is_wordchar w.

(** A token the inline scan of Phase 1 reacts to. *)
Definition phase1_keyword (token : string) : bool :=
  String.eqb (Str.lower token) "defaults"
  || String.eqb (Str.lower token) "primary"
  || String.eqb (Str.lower token) "foreign"
  || String.eqb (Str.lower token) "reference"
  || String.eqb (Str.lower token) "null"
  || String.eqb (Str.lower token) "unique".

(** A column the generator writes with its name, its type and at most the
    two markers [not null] and [unique], in words Phase 1 does not take for
    keywords: no default that is written, not primary, no target. *)
Definition plain_column (T : gset string) (maps : gmap string string) (c : Column.t) : bool :=
  is_word (Column.name c)
  && is_word (dict_get maps (Column.type c) (Column.type c))
  && bool_decide (dict_get maps (Column.type c) (Column.type c) ∈ T)
  && negb (phase1_keyword (Column.name c))
  && negb (phase1_keyword (dict_get maps (Column.type c) (Column.type c)))
  && negb (PyVal.truthy (Column.default c))
  && negb (Column.primary c)
  && negb (truthy_opt (Column.raw_source c)).

(** The list Phase 1 is expected to store for such a column. *)
Definition recovered (maps : gmap string string) (c : Column.t) : row :=
  mkRow (Column.name c) (dict_get maps (Column.type c) (Column.type c))
        false None false (Column.unique c) (Column.nullable c) None [].

(** The tokens of the definition the generator writes for such a column. *)
Definition definition_tokens (name ctype : string) (nullable unique : bool) : list string :=
  (name :: ctype :: (if nullable then [] else ["not"; "null"])
        ++ (if unique then ["unique"] else []))%list.


(** A fragment read as the column stored as [kv]: its first token is the
    key and the name, its second token the type. *)
Definition read_as (frag : string) (kv : string * row) : Prop :=
  exists toks,
    Shlex.shlex frag = Ok toks
    /\ PyList.get toks 0 = Ok (fst kv)
    /\ PyList.get toks 1 = Ok (r_type (snd kv))
    /\ r_name (snd kv) = fst kv.

(** Where the loop of Phase 1 stops after [n] fragments: at the end of the
    fragments, or at a fragment whose second token is no type name. *)
Definition stops_reading (T : gset string) (constrs : list string) (n : nat) : Prop :=
  n = length constrs
  \/ exists frag toks second,
       nth_error constrs n = Some frag
       /\ Shlex.shlex frag = Ok toks
       /\ PyList.get toks 1 = Ok second
       /\ second ∉ T.

(** The assignments [upheld[name] = ...] done for [read], in order. *)
Definition store_all (read : list (string * row)) (u : Upheld.t) : Upheld.t :=
  fold_left (fun u kv => Upheld.set u (fst kv) (snd kv)) read u.

(** The names of a list, each at the place of its first occurrence. *)
Definition first_occurrences_from (seen names : list string) : list string :=
  fold_left (fun acc x => if bool_decide (x ∈ acc) then acc else (acc ++ [x])%list)
            names seen.
Definition first_occurrences (names : list string) : list string :=
  first_occurrences_from [] names.

(** Everything stored for a column but its primary flag. *)
Definition all_but_primary (r : row)
  : string * string * bool * option string * bool * bool * option string * list string :=
  (r_name r, r_type r, r_foreign r, r_source r, r_unique r, r_nullable r, r_default r,
   r_appended r).

Definition unmarked (u : Upheld.t)
  : list (string * (string * string * bool * option string * bool * bool
                    * option string * list string)) :=
  map (fun kv => (fst kv, all_but_primary (snd kv))) u.

(** * Properties *)

(** ** Text and dictionaries *)

Lemma str_app_cons (x : ascii) (a b : string) : String x a ++ b = String x (a ++ b).
Proof. reflexivity. Qed.

Lemma str_app_assoc (a b c : string) : (a ++ b) ++ c = a ++ (b ++ c).
Proof.
  induction a as [|x a IH]; [reflexivity|].
  rewrite !str_app_cons. f_equal. exact IH.
Qed.

Lemma str_app_nil_r (a : string) : a ++ "" = a.
Proof.
  induction a as [|x a IH]; [reflexivity|].
  rewrite str_app_cons. f_equal. exact IH.
Qed.

(** [d.update(other)] reads as [other] where [other] has the key and as [d]
    elsewhere. *)
Lemma dict_update_lookup (d other : gmap string string) (k : string) :
  dict_update d other !! k =
  match other !! k with
  | Some v => Some v
  | None => d !! k
  end.
Proof.
  unfold dict_update.
  apply (map_fold_weak_ind
           (fun r m => r !! k = match m !! k with Some v => Some v | None => d !! k end)).
  - now rewrite lookup_empty.
  - intros i x m r Hi IH. destruct (decide (i = k)) as [->|Hne].
    + now rewrite !lookup_insert_eq.
    + now rewrite !lookup_insert_ne by assumption.
Qed.

Lemma dict_truthy_false (m : gmap string string) :
  dict_truthy m = false -> m = ∅.
Proof.
  unfold dict_truthy. intros H. apply negb_false_iff in H.
  now apply bool_decide_eq_true in H.
Qed.

(** ** Type resolution (C9) *)

Lemma merged_lookup (DM : gmap string string) (override : option (gmap string string))
    (type_ : string) :
  _get_type_mappings DM override !! type_ =
  match override ≫= (fun o => o !! type_) with
  | Some v => Some v
  | None => DM !! type_
  end.
Proof.
  destruct override as [o|]; simpl; [|reflexivity].
  destruct (dict_truthy o) eqn:Ht.
  - apply dict_update_lookup.
  - apply dict_truthy_false in Ht. subst o. now rewrite lookup_empty.
Qed.

Lemma resolve_type_merged (DM : gmap string string) (override : option (gmap string string))
    (type_ : string) :
  dict_get (_get_type_mappings DM override) type_ type_ = resolve_type_spec DM override type_.
Proof.
  unfold dict_get, resolve_type_spec. rewrite merged_lookup.
  destruct (override ≫= _) as [v|]; [reflexivity|].
  destruct (DM !! type_); reflexivity.
Qed.

Lemma primary_count_retype (f : string -> string) (cols : list Column.t) :
  length (filter (fun col => Column.primary col = true) (map (retype f) cols)) =
  length (filter (fun col => Column.primary col = true) cols).
Proof.
  induction cols as [|c cols IH]; [reflexivity|].
  simpl map. rewrite !filter_cons. simpl.
  destruct (decide (Column.primary c = true)); simpl; now rewrite IH.
Qed.

Lemma step1_retype (maps : gmap string string) (pc : nat) (cols : list Column.t) :
  forall (s : string) (ps fs : list Column.t) (s1 : string) (ps1 fs1 : list Column.t),
    _iterate_etbc_step1 cols s ps fs maps pc = (s1, ps1, fs1) ->
    _iterate_etbc_step1 (map (retype (fun t => dict_get maps t t)) cols) s
      (map (retype (fun t => dict_get maps t t)) ps)
      (map (retype (fun t => dict_get maps t t)) fs) ∅ pc
    = (s1, map (retype (fun t => dict_get maps t t)) ps1,
           map (retype (fun t => dict_get maps t t)) fs1).
Proof.
  induction cols as [|c cols IH]; intros s ps fs s1 ps1 fs1 H.
  - simpl in *. now inversion H.
  - simpl in H. apply IH in H. rewrite <- H. clear H IH.
    simpl map at 1. simpl _iterate_etbc_step1.
    f_equal.
    + destruct (Column.primary c), (negb (pc =? 1)%nat); simpl; try reflexivity.
      now rewrite map_app.
    + unfold Column.raw_source; simpl.
      destruct (truthy_opt _); [now rewrite map_app | reflexivity].
Qed.

Lemma retype_ext (f g : string -> string) (cols : list Column.t) :
  (forall t, f t = g t) -> map (retype f) cols = map (retype g) cols.
Proof.
  intros Hfg. apply map_ext. intros c. unfold retype. now rewrite Hfg.
Qed.

Lemma primary_key_clause_retype (f : string -> string) (ps : list Column.t) :
  primary_key_clause (map (retype f) ps) = primary_key_clause ps.
Proof.
  unfold primary_key_clause. rewrite map_map. reflexivity.
Qed.

Lemma foreign_keys_retype (SA : gmap string string) (f : string -> string)
    (fs : list Column.t) :
  forall s : string,
    fold_left (fun s column => s ++ foreign_key_clause SA column) (map (retype f) fs) s =
    fold_left (fun s column => s ++ foreign_key_clause SA column) fs s.
Proof.
  induction fs as [|c fs IH]; intros s; [reflexivity|].
  simpl. rewrite IH. reflexivity.
Qed.

Lemma extract_unfold (DM SA : gmap string string) (cols : list Column.t)
    (override : option (gmap string string)) :
  extract_table_creations DM SA cols override =
  let pc := length (filter (fun col => Column.primary col = true) cols) in
  let '(s, ps, fs) :=
    _iterate_etbc_step1 cols "" [] [] (_get_type_mappings DM override) pc in
  finish SA s ps fs.
Proof.
  unfold extract_table_creations, extract, process_columns, init. simpl.
  destruct (_iterate_etbc_step1 cols "" [] [] _ _) as [[s ps] fs]. simpl.
  unfold add_primary_keys, add_foreign_keys, finish. simpl.
  destruct ps; reflexivity.
Qed.

Lemma finish_retype (SA : gmap string string) (f : string -> string) (s : string)
    (ps fs : list Column.t) :
  finish SA s (map (retype f) ps) (map (retype f) fs) = finish SA s ps fs.
Proof.
  unfold finish. rewrite foreign_keys_retype.
  destruct ps as [|p ps]; [reflexivity|].
  change (map (retype f) (p :: ps)) with (retype f p :: map (retype f) ps).
  change (retype f p :: map (retype f) ps) with (map (retype f) (p :: ps)).
  rewrite primary_key_clause_retype. reflexivity.
Qed.

(** ** The generated text, clause by clause *)

Lemma concat_text_app (l1 l2 : list string) :
  concat_text (l1 ++ l2)%list = concat_text l1 ++ concat_text l2.
Proof.
  induction l1 as [|x l1 IH]; [reflexivity|].
  simpl. unfold concat_text in *. simpl. rewrite IH. now rewrite str_app_assoc.
Qed.

Lemma process_column_text (c : Column.t) (ctype : string) (pc : nat) :
  _process_column_constraints c ctype pc =
  column_text c ctype ++ (if Column.primary c && (pc =? 1)%nat then inline_text c else "").
Proof.
  unfold _process_column_constraints, column_text, inline_text.
  destruct (negb (Column.nullable c)), (Column.unique c),
    (PyVal.truthy (Column.default c)), (Column.primary c && (pc =? 1)%nat),
    (Column.auto_increment c);
    repeat rewrite ?str_app_assoc, ?str_app_nil_r; reflexivity.
Qed.

(** What the column loop leaves in the text and in the two lists. *)
Lemma step1_clauses (SA maps : gmap string string) (pc : nat) (cols : list Column.t) :
  forall (s : string) (ps fs : list Column.t),
    _iterate_etbc_step1 cols s ps fs maps pc =
    (s ++ concat_text (map (render SA) (column_defs maps pc cols)),
     (ps ++ (if negb (pc =? 1)%nat
             then filter (fun col => Column.primary col = true) cols else []))%list,
     (fs ++ filter has_target cols)%list).
Proof.
  induction cols as [|c cols IH]; intros s ps fs.
  - simpl. rewrite str_app_nil_r. destruct (negb _); now rewrite !app_nil_r.
  - simpl _iterate_etbc_step1. rewrite IH. clear IH.
    rewrite process_column_text. f_equal; [f_equal|].
    + simpl. unfold concat_text. simpl. now rewrite !str_app_assoc.
    + rewrite filter_cons.
      destruct (decide (Column.primary c = true)) as [Hp|Hp].
      * rewrite Hp. destruct (negb (pc =? 1)%nat); now rewrite <- ?app_assoc.
      * apply not_true_is_false in Hp. rewrite Hp.
        destruct (negb (pc =? 1)%nat); reflexivity.
    + rewrite filter_cons. unfold has_target at 2.
      destruct (decide (truthy_opt (Column.raw_source c) = true)) as [Ht|Ht].
      * rewrite Ht. now rewrite <- app_assoc.
      * apply not_true_is_false in Ht. now rewrite Ht.
Qed.

Lemma foreign_keys_text (SA : gmap string string) (fs : list Column.t) :
  forall s : string,
    fold_left (fun s column => s ++ foreign_key_clause SA column) fs s =
    s ++ concat_text (map (render SA) (map TableForeignKey fs)).
Proof.
  induction fs as [|c fs IH]; intros s.
  - simpl. now rewrite str_app_nil_r.
  - simpl. rewrite IH. unfold concat_text. simpl. now rewrite str_app_assoc.
Qed.

Lemma primaries_at_least_two (pc : nat) (cols : list Column.t) :
  pc = primary_count cols ->
  (if negb (pc =? 1)%nat then filter (fun col => Column.primary col = true) cols else [])
  = if (2 <=? pc)%nat then filter (fun col => Column.primary col = true) cols else [].
Proof.
  intros Hpc. unfold primary_count in Hpc.
  destruct pc as [|[|n]]; simpl; try reflexivity.
  symmetry in Hpc. apply length_zero_iff_nil in Hpc. now rewrite Hpc.
Qed.

(** The generator returns the clauses of the spec's algorithm, each closed
    by its comma, without the first blank and the last comma. *)
Lemma generator_refines_spec (DM SA : gmap string string) (cols : list Column.t)
    (override : option (gmap string string)) :
  extract_table_creations DM SA cols override =
  Str.strip_ends
    (concat_text (map (render SA) (clauses_spec (_get_type_mappings DM override) cols))).
Proof.
  rewrite extract_unfold. cbv zeta. fold (primary_count cols).
  rewrite (step1_clauses SA). unfold finish.
  f_equal. simpl app.
  rewrite (primaries_at_least_two _ cols eq_refl).
  unfold clauses_spec, table_primary_key, table_foreign_keys.
  rewrite foreign_keys_text, !map_app, !concat_text_app.
  destruct (2 <=? primary_count cols)%nat eqn:Hpc.
  - destruct (filter _ cols) as [|p ps] eqn:Hf.
    + exfalso. unfold primary_count in Hpc. rewrite Hf in Hpc. discriminate.
    + simpl. unfold concat_text at 3. simpl.
      now rewrite str_app_nil_r, !str_app_assoc.
  - simpl. reflexivity.
Qed.

(** ** One primary-key clause (C2) *)

Lemma inline_markers (maps : gmap string string) (pc : nat) (cols : list Column.t) :
  primary_key_clauses (column_defs maps pc cols) =
  if (pc =? 1)%nat then primary_count cols else 0%nat.
Proof.
  unfold primary_key_clauses, column_defs, primary_count.
  induction cols as [|c cols IH]; [now destruct (pc =? 1)%nat|].
  simpl map. rewrite !filter_cons. simpl is_primary_key_clause.
  destruct (pc =? 1)%nat eqn:Hpc.
  - rewrite andb_true_r.
    destruct (decide (Column.primary c = true)); simpl; now rewrite IH.
  - rewrite andb_false_r. destruct (decide (false = true)); [discriminate | exact IH].
Qed.

Lemma foreign_keys_no_primary (cols : list Column.t) :
  primary_key_clauses (table_foreign_keys cols) = 0%nat.
Proof.
  unfold primary_key_clauses, table_foreign_keys.
  induction (filter has_target cols) as [|c l IH]; [reflexivity|].
  simpl map. rewrite filter_cons. simpl.
  destruct (decide (false = true)); [discriminate | exact IH].
Qed.

Lemma table_primary_key_count (pc : nat) (cols : list Column.t) :
  primary_key_clauses (table_primary_key pc cols) = if (2 <=? pc)%nat then 1%nat else 0%nat.
Proof.
  unfold primary_key_clauses, table_primary_key.
  destruct (2 <=? pc)%nat; reflexivity.
Qed.

Lemma primary_key_clauses_app (l1 l2 : list clause) :
  primary_key_clauses (l1 ++ l2)%list = (primary_key_clauses l1 + primary_key_clauses l2)%nat.
Proof.
  unfold primary_key_clauses. now rewrite filter_app, length_app.
Qed.

Lemma some_primary_count (cols : list Column.t) :
  existsb Column.primary cols = (0 <? primary_count cols)%nat.
Proof.
  unfold primary_count.
  induction cols as [|c cols IH]; [reflexivity|].
  simpl existsb. rewrite filter_cons.
  destruct (decide (Column.primary c = true)) as [Hp|Hp].
  - now rewrite Hp.
  - apply not_true_is_false in Hp. now rewrite Hp.
Qed.

Lemma render_clause_text (SA : gmap string string) (cl : clause) :
  render SA cl = clause_text SA cl.
Proof.
  destruct cl as [c ctype pk|ps|c]; [|reflexivity|reflexivity].
  unfold render, clause_text, column_text, inline_text.
  destruct (Column.nullable c), (Column.unique c), (PyVal.truthy (Column.default c)), pk;
    cbn [negb]; repeat rewrite ?str_app_assoc, ?str_app_nil_r; reflexivity.
Qed.

Lemma generator_writes_clause_texts (DM SA : gmap string string) (cols : list Column.t)
    (override : option (gmap string string)) :
  extract_table_creations DM SA cols override =
  Str.strip_ends
    (concat_text (map (clause_text SA) (clauses_spec (_get_type_mappings DM override) cols))).
Proof.
  rewrite generator_refines_spec. do 2 f_equal.
  apply map_ext. intros cl. apply render_clause_text.
Qed.

(** A clause counted as a primary-key clause carries the words. *)
Lemma primary_key_clause_has_marker (SA : gmap string string) (cl : clause) :
  is_primary_key_clause cl = true ->
  exists before after, clause_text SA cl = before ++ " primary key" ++ after.
Proof.
  destruct cl as [c ctype pk|ps|c]; simpl; intros H; [subst pk| |discriminate].
  - exists (" " ++ Column.name c ++ " " ++ ctype
              ++ (if Column.nullable c then "" else " not null")
              ++ (if Column.unique c then " unique" else "")
              ++ (if PyVal.truthy (Column.default c)
                  then " default " ++ PyVal.repr (Column.default c) else "")),
           ((if Column.auto_increment c then " autoincrement" else "") ++ ",").
    repeat rewrite ?str_app_assoc. reflexivity.
  - exists "", (" (" ++ Str.join ", " (map Column.name ps) ++ "),"). reflexivity.
Qed.

(** A clause not counted as one is a column definition written without the
    marker, or a foreign key. *)
Lemma other_clause_is_plain (SA : gmap string string) (cl : clause) :
  is_primary_key_clause cl = false ->
  (exists c ctype,
      cl = ColumnDef c ctype false
      /\ clause_text SA cl =
         " " ++ Column.name c ++ " " ++ ctype
           ++ (if Column.nullable c then "" else " not null")
           ++ (if Column.unique c then " unique" else "")
           ++ (if PyVal.truthy (Column.default c)
               then " default " ++ PyVal.repr (Column.default c) else "")
           ++ ",")
  \/ (exists c, cl = TableForeignKey c).
Proof.
  destruct cl as [c ctype pk|ps|c]; simpl; intros H; [subst pk| discriminate |].
  - left. exists c, ctype. split; reflexivity.
  - right. eauto.
Qed.

(** C2. For every list of column descriptors the generated body is the text
    of the clauses of the spec's algorithm, written out: among them exactly
    one is a primary-key clause when some column is primary, and none is
    when no column is primary. The clause counted carries the words
    [primary key] (after a column definition, or before the group of names);
    every other clause is a column definition written without them or a
    foreign key. *)
Theorem C2_exactly_one_primary_key_clause
    (DM SA : gmap string string) (cols : list Column.t)
    (override : option (gmap string string)) :
  extract_table_creations DM SA cols override =
    Str.strip_ends
      (concat_text (map (clause_text SA)
                        (clauses_spec (_get_type_mappings DM override) cols)))
  /\ primary_key_clauses (clauses_spec (_get_type_mappings DM override) cols) =
     (if existsb Column.primary cols then 1 else 0)%nat
  /\ Forall (fun cl =>
               if is_primary_key_clause cl
               then exists before after,
                      clause_text SA cl = before ++ " primary key" ++ after
               else (exists c ctype,
                        cl = ColumnDef c ctype false
                        /\ clause_text SA cl =
                           " " ++ Column.name c ++ " " ++ ctype
                             ++ (if Column.nullable c then "" else " not null")
                             ++ (if Column.unique c then " unique" else "")
                             ++ (if PyVal.truthy (Column.default c)
                                 then " default " ++ PyVal.repr (Column.default c) else "")
                             ++ ",")
                    \/ (exists c, cl = TableForeignKey c))
            (clauses_spec (_get_type_mappings DM override) cols).
Proof.
  split; [apply generator_writes_clause_texts|]. split.
  - unfold clauses_spec.
    rewrite !primary_key_clauses_app, inline_markers, table_primary_key_count,
      foreign_keys_no_primary, some_primary_count.
    destruct (primary_count cols) as [|[|n]]; reflexivity.
  - apply Forall_forall. intros cl _.
    destruct (is_primary_key_clause cl) eqn:Hcl.
    + now apply primary_key_clause_has_marker.
    + now apply other_clause_is_plain.
Qed.

Lemma resolved_clauses_spec (DM : gmap string string)
    (override : option (gmap string string)) (cols : list Column.t) :
  clauses_spec (_get_type_mappings DM override) cols = resolved_clauses DM override cols.
Proof.
  unfold clauses_spec, resolved_clauses, column_defs. f_equal.
  apply map_ext. intros c. now rewrite resolve_type_merged.
Qed.

(** C9. For every default mapping, every caller-supplied override and every
    type name, the generator resolves the name through the merge of the two
    in which the caller's entry wins, a name the override lacks keeps its
    default mapping, and a name absent from both is used verbatim. The
    generated text is the one obtained from the columns with their types so
    resolved and no mapping at all, and it is the text of the clauses
    written out, in which every column definition reads [name] then the type
    so resolved. *)
Theorem C9_override_wins_on_collision
    (DM SA : gmap string string) (override : option (gmap string string))
    (cols : list Column.t) (type_ : string) :
  dict_get (_get_type_mappings DM override) type_ type_ = resolve_type_spec DM override type_
  /\ extract_table_creations DM SA cols override =
     extract_table_creations ∅ SA (map (retype (resolve_type_spec DM override)) cols) None
  /\ extract_table_creations DM SA cols override =
     Str.strip_ends
       (concat_text (map (clause_text SA) (resolved_clauses DM override cols))).
Proof.
  split; [apply resolve_type_merged|]. split.
  - rewrite !extract_unfold. cbv zeta.
    rewrite primary_count_retype.
    destruct (_iterate_etbc_step1 cols "" [] [] (_get_type_mappings DM override) _)
      as [[s ps] fs] eqn:Hrun.
    apply step1_retype in Hrun. simpl map in Hrun.
    rewrite (retype_ext _ (resolve_type_spec DM override)) in Hrun
      by (intros t; apply resolve_type_merged).
    change (_get_type_mappings ∅ None) with (∅ : gmap string string).
    rewrite Hrun. symmetry. apply finish_retype.
  - rewrite generator_writes_clause_texts. now rewrite resolved_clauses_spec.
Qed.

(** ** Foreign-key clauses (C6) *)

Lemma target_is_truthy (c : Column.t) (tb col : string) :
  Column.reference c = Some (tb, col) -> has_target c.
Proof.
  intros H. unfold has_target, Column.raw_source. rewrite H. simpl.
  destruct tb; reflexivity.
Qed.

Lemma column_defs_are_definitions (maps : gmap string string) (pc : nat)
    (cols : list Column.t) :
  Forall (fun cl => exists c ctype pk, cl = ColumnDef c ctype pk) (column_defs maps pc cols).
Proof.
  unfold column_defs. apply Forall_map, Forall_forall. intros c _. simpl. eauto.
Qed.

(** C6. For every column descriptor of the input that carries a foreign-key
    target, the generated body holds, after the definitions of all the
    columns and after the table-level primary key if there is one, a clause
    of the exact form [foreign key (name) references table (column) on delete
    <action> on update <action>]; whether the column is primary plays no
    part. *)
Theorem C6_foreign_key_clause_emitted
    (DM SA : gmap string string) (cols : list Column.t)
    (override : option (gmap string string)) (c : Column.t) (tb col : string) :
  c ∈ cols ->
  Column.reference c = Some (tb, col) ->
  exists defs pk fks : list clause,
    extract_table_creations DM SA cols override =
      Str.strip_ends (concat_text (map (render SA) (defs ++ pk ++ fks)%list))
    /\ length defs = length cols
    /\ Forall (fun cl => exists c' ctype inl, cl = ColumnDef c' ctype inl) defs
    /\ Forall (fun cl => exists ps, cl = TablePrimaryKey ps) pk
    /\ TableForeignKey c ∈ fks
    /\ render SA (TableForeignKey c) =
       " foreign key (" ++ Column.name c ++ ") references " ++ tb ++ " (" ++ col ++ ")"
         ++ " on delete " ++ dict_get SA (Column.on_delete c) (Column.on_delete c)
         ++ " on update " ++ dict_get SA (Column.on_update c) (Column.on_update c) ++ ",".
Proof.
  intros Hin Href.
  exists (column_defs (_get_type_mappings DM override) (primary_count cols) cols),
         (table_primary_key (primary_count cols) cols),
         (table_foreign_keys cols).
  split; [apply generator_refines_spec|].
  split; [unfold column_defs; now rewrite length_map|].
  split; [apply column_defs_are_definitions|].
  split.
  { unfold table_primary_key. destruct (2 <=? _)%nat; [|constructor].
    constructor; [eauto | constructor]. }
  split.
  { unfold table_foreign_keys. apply list_elem_of_fmap. exists c. split; [reflexivity|].
    apply list_elem_of_filter. split; [|assumption].
    eapply target_is_truthy; eassumption. }
  simpl. unfold foreign_key_clause, Column.source, Column.source_column, _iterate_sql_action.
  rewrite Href. reflexivity.
Qed.

(** ** Phase 1 of the parser *)

Lemma get_short {A} (l : list A) : (length l < 2)%nat -> PyList.get l 1 = Raise IndexError.
Proof.
  destruct l as [|a [|b l]]; simpl; intros H; try reflexivity. lia.
Qed.

Lemma get_first {A} (l : list A) (x : A) : PyList.get l 1 = Ok x -> exists y, PyList.get l 0 = Ok y.
Proof.
  destruct l as [|a l]; [discriminate|]. intros _. exists a. reflexivity.
Qed.

Lemma loop_index_error (T : gset string) (frag : string) (rest : list string)
    (toks : list string) :
  Shlex.shlex frag = Ok toks ->
  (length toks < 2)%nat ->
  forall (pre : list string) (upheld : Upheld.t),
    forallb (reads_as_column T) pre = true ->
    basic_extract_loop T (pre ++ frag :: rest) upheld = Raise IndexError.
Proof.
  intros Hlex Hshort. induction pre as [|constr pre IH]; intros upheld Hpre.
  - simpl. rewrite Hlex. simpl. now rewrite get_short.
  - simpl in Hpre. apply andb_true_iff in Hpre as [Hc Hpre].
    unfold reads_as_column in Hc.
    simpl. destruct (Shlex.shlex constr) as [ts|]; [|discriminate]. simpl.
    destruct (PyList.get ts 1) as [second|] eqn:Hsecond; [|discriminate]. simpl.
    apply andb_true_iff in Hc as [Hty Hread]. rewrite Hty. simpl.
    destruct (get_first _ _ Hsecond) as [name Hname]. rewrite Hname. simpl.
    destruct (length ts =? 2)%nat; [now apply IH|].
    simpl in Hread. destruct (inline_tokens ts ts inline0); [|discriminate].
    simpl. now apply IH.
Qed.

(** C10. [basic_extract] is partial: when a comma-delimited fragment of the
    body tokenizes to fewer than two tokens, and the fragments before it (none
    when it is the first) are read as columns, indexing the token list at
    position 1 fails with an [IndexError] instead of a result. The empty body
    is the case of the first fragment; a body that ends in a comma is the case
    of the last. *)
Theorem C10_basic_extract_index_error
    (T : gset string) (table_creation : string) (pre : list string) (frag : string)
    (rest : list string) (toks : list string) :
  Str.split "," (body_of table_creation) = (pre ++ frag :: rest)%list ->
  forallb (reads_as_column T) pre = true ->
  Shlex.shlex frag = Ok toks ->
  (length toks < 2)%nat ->
  basic_extract T table_creation = Raise IndexError.
Proof.
  intros Hsplit Hpre Hlex Hshort. unfold basic_extract. rewrite Hsplit.
  now rewrite (loop_index_error T frag rest toks Hlex Hshort pre [] Hpre).
Qed.

Lemma C10_witness :
  basic_extract Absent.SQLITETYPES "create table t ()" = Raise IndexError
  /\ basic_extract Absent.SQLITETYPES "create table t (a integer, b text not null,)"
     = Raise IndexError.
Proof.
  split.
  - apply (C10_basic_extract_index_error Absent.SQLITETYPES "create table t ()"
             [] "" [] []); [reflexivity | reflexivity | reflexivity | simpl; lia].
  - apply (C10_basic_extract_index_error Absent.SQLITETYPES
             "create table t (a integer, b text not null,)"
             ["a integer"; " b text not null"] "" [] []);
      [reflexivity | vm_compute; reflexivity | reflexivity | simpl; lia].
Defined.

(** ** Inline defaults (C8) *)

(** The test that guards the unquoting (the first character differs from
    the double quote, or it differs from the single quote) holds of every
    character. *)
Lemma unquoting_guard_always_true (c0 : ascii) :
  negb (Ascii.eqb c0 "034") || negb (Ascii.eqb c0 "'") = true.
Proof.
  destruct (Ascii.eqb_spec c0 "034") as [->|]; reflexivity.
Qed.

(** What one pass of the token loop does on the keyword it looks for: the
    token after it is recorded as it stands. *)
Lemma defaults_token_verbatim (base_columns : list string) (token d : string)
    (i : Z) (st : inline) :
  Str.lower token = "defaults" ->
  PyList.index token base_columns = Ok i ->
  PyList.get base_columns (i + 1) = Ok d ->
  Str.nonempty d = true ->
  exists st', inline_token base_columns token st = Ok st' /\ i_defaults st' = Some d.
Proof.
  intros Hlow Hi Hd Hne. unfold inline_token. rewrite Hlow. simpl.
  rewrite Hi. simpl. rewrite Hd. simpl.
  destruct d as [|c0 d]; [discriminate|]. simpl.
  rewrite unquoting_guard_always_true. eexists. split; reflexivity.
Qed.

(** C8, at the failing inputs. A quoted literal after the keyword the
    parser looks for ([defaults]) is recorded with its quotes; after the
    keyword the generator writes ([default]) nothing is recorded at all,
    quoted or not. *)
Theorem C8_quoted_default_keeps_quotes :
  recorded_default Absent.SQLITETYPES "create table t (a text defaults 'x')" "a"
    = Ok (Some "'x'")
  /\ recorded_default Absent.SQLITETYPES "create table t (a text default 'x')" "a" = Ok None
  /\ recorded_default Absent.SQLITETYPES "create table t (a integer default 5)" "a" = Ok None.
Proof. repeat split; vm_compute; reflexivity. Qed.

(** ** Phase 2 of the parser: the inline primary keys are never revised *)

Section Phase2.

Variable paren_wrap : gmap string string.

Lemma get_set_primary_names (u : Upheld.t) (key : string) (v v' : row) :
  Upheld.get u key = Ok v ->
  r_primary v' = r_primary v ->
  map fst (filter (fun kv => r_primary (snd kv) = true) (Upheld.set u key v')) =
  map fst (filter (fun kv => r_primary (snd kv) = true) u).
Proof.
  intros Hget Hsame. induction u as [|[k w] u IH]; [discriminate|].
  cbn [Upheld.get Upheld.set] in Hget |- *. destruct (String.eqb k key) eqn:Hk.
  - inversion Hget; subst w. rewrite !filter_cons. cbn [snd]. rewrite Hsame.
    destruct (decide (r_primary v = true)); reflexivity.
  - rewrite !filter_cons. cbn [snd].
    destruct (decide (r_primary w = true)); cbn [map fst]; now rewrite IH.
Qed.

Lemma update_keeps_inline (u u' : Upheld.t) (key : string) (f : row -> row) :
  (forall r, r_primary (f r) = r_primary r) ->
  Upheld.update u key f = Ok u' ->
  inline_primaries u' = inline_primaries u.
Proof.
  intros Hf. unfold Upheld.update. destruct (Upheld.get u key) as [v|] eqn:Hget; [|discriminate].
  simpl. intros H. inversion H; subst u'. unfold inline_primaries.
  now rewrite (get_set_primary_names u key v (f v) Hget (Hf v)).
Qed.

Lemma record_action_keeps_inline (kw : string) (cs : list string) (name : string)
    (u u' : Upheld.t) :
  record_action kw cs name u = Ok u' -> inline_primaries u' = inline_primaries u.
Proof.
  unfold record_action. destruct (PyList.mem kw cs); [|intros H; now inversion H].
  destruct (PyList.index kw cs); [|discriminate]. simpl.
  destruct (Upheld.get u name); [|discriminate]. simpl.
  destruct (PyList.get cs _); [|discriminate]. simpl.
  apply update_keeps_inline. reflexivity.
Qed.

Lemma on_foreign_keeps_inline (cs : list string) (tindex : nat) (u u' : Upheld.t) :
  on_foreign paren_wrap cs tindex u = Ok u' -> inline_primaries u' = inline_primaries u.
Proof.
  unfold on_foreign.
  destruct (wrap_after paren_wrap cs tindex) as [wrap|]; [|discriminate]. simpl.
  destruct (PyList.get cs _) as [key|]; [|discriminate]. simpl.
  destruct (wrap_get paren_wrap _) as [target|]; [|discriminate]. simpl.
  destruct (PyList.get cs _) as [tb|]; [|discriminate]. simpl.
  destruct (Upheld.update u _ _) as [u1|] eqn:H1; [|discriminate]. simpl.
  destruct (record_action "delete" cs _ u1) as [u2|] eqn:H2; [|discriminate]. simpl.
  intros H3.
  apply record_action_keeps_inline in H3, H2.
  apply update_keeps_inline in H1; [|reflexivity].
  congruence.
Qed.

Lemma on_primary_keeps_inline (cs : list string) (tindex : nat) (u u' : Upheld.t) :
  inline_primaries u <> ∅ ->
  on_primary paren_wrap cs tindex u = Ok u' -> u' = u.
Proof.
  intros Hne. unfold on_primary.
  destruct (wrap_after paren_wrap cs tindex) as [wrap|]; [|discriminate]. simpl.
  rewrite (bool_decide_eq_false_2 _ Hne). simpl.
  destruct (negb _); [discriminate|]. intros H. now inversion H.
Qed.

Lemma scan_clause_keeps_inline (cs : list string) (tokens : list string) :
  forall (tindex : nat) (u u' : Upheld.t),
    inline_primaries u <> ∅ ->
    scan_clause paren_wrap cs tindex tokens u = Ok u' ->
    inline_primaries u' = inline_primaries u.
Proof.
  induction tokens as [|token rest IH]; intros tindex u u' Hne H.
  - simpl in H. now inversion H.
  - simpl in H. destruct (String.eqb (Str.lower token) "primary").
    + apply on_primary_keeps_inline in H; [now subst | assumption].
    + destruct (String.eqb (Str.lower token) "foreign").
      * destruct (on_foreign paren_wrap cs tindex u) as [u1|] eqn:H1; [|discriminate].
        simpl in H. apply on_foreign_keeps_inline in H1.
        apply IH in H; [congruence | now rewrite H1].
      * simpl in H. now apply IH in H.
Qed.

Lemma scan_clauses_keeps_inline (clauses : list string) :
  forall (u u' : Upheld.t),
    inline_primaries u <> ∅ ->
    scan_clauses paren_wrap clauses u = Ok u' ->
    inline_primaries u' = inline_primaries u.
Proof.
  induction clauses as [|cl rest IH]; intros u u' Hne H.
  - simpl in H. now inversion H.
  - simpl in H. destruct (Shlex.shlex cl) as [cs|]; [|discriminate]. simpl in H.
    destruct (scan_clause paren_wrap cs 0 cs u) as [u1|] eqn:H1; [|discriminate].
    simpl in H. apply scan_clause_keeps_inline in H1; [|assumption].
    apply IH in H; [congruence | now rewrite H1].
Qed.

Lemma scan_clause_first_primary (cs : list string) (tok : string) (after : list string) :
  Str.lower tok = "primary" ->
  forall (before : list string) (tindex : nat) (u : Upheld.t),
    forallb (fun t => negb (is_keyword t)) before = true ->
    scan_clause paren_wrap cs tindex (before ++ tok :: after) u =
    on_primary paren_wrap cs (tindex + length before) u.
Proof.
  intros Hlow. induction before as [|t before IH]; intros tindex u Hbefore.
  - simpl. rewrite Hlow. simpl. now rewrite Nat.add_0_r.
  - simpl in Hbefore. apply andb_true_iff in Hbefore as [Ht Hbefore].
    unfold is_keyword in Ht. apply negb_true_iff, orb_false_iff in Ht as [Hp Hf].
    simpl. rewrite Hp, Hf. simpl. rewrite IH by assumption.
    f_equal. lia.
Qed.

(** Scanning stops with the conflict at the first clause that disagrees. *)
Lemma scan_clauses_conflict (pre : list string) (clause : string) (post : list string)
    (before : list string) (tok : string) (after : list string) (wrap : string)
    (u u' : Upheld.t) :
  inline_primaries u <> ∅ ->
  scan_clauses paren_wrap pre u = Ok u' ->
  Shlex.shlex clause = Ok (before ++ tok :: after)%list ->
  forallb (fun t => negb (is_keyword t)) before = true ->
  Str.lower tok = "primary" ->
  wrap_after paren_wrap (before ++ tok :: after)%list (length before) = Ok wrap ->
  table_level (names_of_wrap wrap) <> inline_primaries u ->
  scan_clauses paren_wrap (pre ++ clause :: post) u = Raise conflict.
Proof.
  intros Hne Hpre Hlex Hbefore Hlow Hwrap Hdiff.
  assert (Hsame : inline_primaries u' = inline_primaries u)
    by (eapply scan_clauses_keeps_inline; eassumption).
  revert u Hne Hpre Hsame Hdiff.
  induction pre as [|cl pre IH]; intros u Hne Hpre Hsame Hdiff.
  - simpl in Hpre. inversion Hpre; subst u'. simpl. rewrite Hlex. simpl.
    rewrite (scan_clause_first_primary _ tok after Hlow before 0 u Hbefore). simpl.
    unfold on_primary. rewrite Hwrap. simpl.
    rewrite (bool_decide_eq_false_2 _ Hne). simpl.
    rewrite bool_decide_eq_false_2; [reflexivity | congruence].
  - simpl in Hpre |- *. destruct (Shlex.shlex cl) as [cs|]; [|discriminate]. simpl in *.
    destruct (scan_clause paren_wrap cs 0 cs u) as [u1|] eqn:H1; [|discriminate]. simpl in *.
    pose proof (scan_clause_keeps_inline _ _ _ _ _ Hne H1) as H1'.
    apply IH; try assumption; congruence.
Qed.

End Phase2.

(** ** Conflicting primary keys (C4) *)

(** C4. Let Phase 1 find an inline primary-key marker on some column. If,
    in Phase 2, the clauses before one are scanned without an exception, and
    in that one the first keyword met is [primary], naming a set of columns
    that differs from the set of inline primary columns, then the parser
    raises the conflict error and returns no result. *)
Theorem C4_conflicting_primary_keys_raise
    (T : gset string)
    (filter_extraction : string -> list string -> list string * gmap string string * string)
    (Column_of_row : row -> result Column.t)
    (table_creation : string) (cols : list Column.t) (upheld upheld' : Upheld.t)
    (shlexed keys : list string) (paren_wrap : gmap string string) (filtered : string)
    (pre : list string) (clause : string) (post : list string)
    (before : list string) (tok : string) (after : list string) (wrap : string) :
  basic_extract T table_creation = Ok (cols, upheld) ->
  inline_primaries upheld <> ∅ ->
  Shlex.shlex (body_of table_creation) = Ok shlexed ->
  filter_extraction (body_of table_creation) shlexed = (keys, paren_wrap, filtered) ->
  Str.split "," filtered = (pre ++ clause :: post)%list ->
  scan_clauses paren_wrap pre upheld = Ok upheld' ->
  Shlex.shlex clause = Ok (before ++ tok :: after)%list ->
  forallb (fun t => negb (is_keyword t)) before = true ->
  Str.lower tok = "primary" ->
  wrap_after paren_wrap (before ++ tok :: after)%list (length before) = Ok wrap ->
  table_level (names_of_wrap wrap) <> inline_primaries upheld ->
  extract_table T filter_extraction Column_of_row table_creation = Raise conflict.
Proof.
  intros Hbasic Hne Hlex Hfe Hsplit Hpre Hclause Hbefore Hlow Hwrap Hdiff.
  unfold extract_table. rewrite Hbasic. simpl. rewrite Hlex. simpl.
  rewrite Hfe, Hsplit.
  now rewrite (scan_clauses_conflict paren_wrap pre clause post before tok after wrap
                 upheld upheld' Hne Hpre Hclause Hbefore Hlow Hwrap Hdiff).
Qed.

Lemma C4_witness :
  parse "create table t (a integer primary key, b integer, primary key (a, b))"
    = Raise conflict
  /\ parse ("create table t (autoincrement integer primary key autoincrement, "
            ++ "b integer, primary key (autoincrement, b))")
     = Raise conflict.
Proof.
  split.
  - unfold parse.
    eapply (C4_conflicting_primary_keys_raise Absent.SQLITETYPES Absent.filter_extraction _
              _ _ _ _ _ _ _ _
              [] "a integer primary key" [" b integer"; " primary key :wrap0"]
              ["a"; "integer"] "primary" ["key"]).
    + vm_compute; reflexivity.
    + differ_by_computation.
    + vm_compute; reflexivity.
    + vm_compute; reflexivity.
    + vm_compute; reflexivity.
    + reflexivity.
    + vm_compute; reflexivity.
    + vm_compute; reflexivity.
    + vm_compute; reflexivity.
    + vm_compute; reflexivity.
    + differ_by_computation.
  - unfold parse.
    eapply (C4_conflicting_primary_keys_raise Absent.SQLITETYPES Absent.filter_extraction _
              _ _ _ _ _ _ _ _
              ["autoincrement integer primary key autoincrement"; " b integer"]
              " primary key :wrap0" []
              [] "primary" ["key"; ":"; "wrap0"]).
    + vm_compute; reflexivity.
    + differ_by_computation.
    + vm_compute; reflexivity.
    + vm_compute; reflexivity.
    + vm_compute; reflexivity.
    + vm_compute; reflexivity.
    + vm_compute; reflexivity.
    + vm_compute; reflexivity.
    + vm_compute; reflexivity.
    + vm_compute; reflexivity.
    + differ_by_computation.
Defined.

(** ** Round trips through the generator and the parser (C1, C5, C7) *)

(** *** Phase 2 never touches a recorded default *)

Lemma set_keeps_defaults (u : Upheld.t) (key : string) (v v' : row) :
  Upheld.get u key = Ok v ->
  r_default v' = r_default v ->
  defaults_of (Upheld.set u key v') = defaults_of u.
Proof.
  intros Hget Hsame. induction u as [|[k w] u IH]; [discriminate|].
  cbn [Upheld.get Upheld.set] in Hget |- *. destruct (String.eqb k key).
  - inversion Hget; subst w. unfold defaults_of. simpl. now rewrite Hsame.
  - unfold defaults_of in *. simpl. now rewrite IH.
Qed.

Lemma update_keeps_defaults (u u' : Upheld.t) (key : string) (f : row -> row) :
  (forall r, r_default (f r) = r_default r) ->
  Upheld.update u key f = Ok u' ->
  defaults_of u' = defaults_of u.
Proof.
  intros Hf. unfold Upheld.update. destruct (Upheld.get u key) as [v|] eqn:Hget; [|discriminate].
  simpl. intros H. inversion H; subst u'.
  now apply (set_keeps_defaults u key v (f v) Hget (Hf v)).
Qed.

Lemma mark_primaries_keeps_defaults (names : list string) :
  forall u u' : Upheld.t,
    mark_primaries names u = Ok u' -> defaults_of u' = defaults_of u.
Proof.
  induction names as [|n names IH]; intros u u' H.
  - simpl in H. now inversion H.
  - simpl in H. destruct (Upheld.update u (unquote n) set_primary) as [u1|] eqn:H1; [|discriminate].
    simpl in H. apply update_keeps_defaults in H1; [|reflexivity].
    apply IH in H. congruence.
Qed.

Lemma scan_clause_keeps_defaults (paren_wrap : gmap string string)
    (cs : list string) (tokens : list string) :
  forall (tindex : nat) (u u' : Upheld.t),
    scan_clause paren_wrap cs tindex tokens u = Ok u' -> defaults_of u' = defaults_of u.
Proof.
  induction tokens as [|token rest IH]; intros tindex u u' H.
  - simpl in H. now inversion H.
  - simpl in H. destruct (String.eqb (Str.lower token) "primary").
    + unfold on_primary in H.
      destruct (wrap_after paren_wrap cs tindex) as [wrap|]; [|discriminate]. simpl in H.
      destruct (negb (bool_decide (inline_primaries u = ∅))).
      * destruct (negb _); [discriminate | now inversion H].
      * now apply mark_primaries_keeps_defaults in H.
    + destruct (String.eqb (Str.lower token) "foreign").
      * destruct (on_foreign paren_wrap cs tindex u) as [u1|] eqn:H1; [|discriminate].
        simpl in H. apply IH in H. rewrite H. clear H IH.
        unfold on_foreign in H1.
        destruct (wrap_after paren_wrap cs tindex) as [wrap|]; [|discriminate]. simpl in H1.
        destruct (PyList.get cs _) as [key|]; [|discriminate]. simpl in H1.
        destruct (wrap_get paren_wrap _) as [target|]; [|discriminate]. simpl in H1.
        destruct (PyList.get cs _) as [tb|]; [|discriminate]. simpl in H1.
        destruct (Upheld.update u _ _) as [u2|] eqn:H2; [|discriminate]. simpl in H1.
        apply update_keeps_defaults in H2; [|reflexivity].
        assert (Hact : forall kw name v v', record_action kw cs name v = Ok v' ->
                                            defaults_of v' = defaults_of v).
        { intros kw name v v'. unfold record_action.
          destruct (PyList.mem kw cs); [|intros E; now inversion E].
          destruct (PyList.index kw cs); [|discriminate]. simpl.
          destruct (Upheld.get v name); [|discriminate]. simpl.
          destruct (PyList.get cs _); [|discriminate]. simpl.
          apply update_keeps_defaults. reflexivity. }
        destruct (record_action "delete" cs _ u2) as [u3|] eqn:H3; [|discriminate].
        simpl in H1. apply Hact in H1, H3. congruence.
      * simpl in H. now apply IH in H.
Qed.

Lemma scan_clauses_keeps_defaults (paren_wrap : gmap string string) (clauses : list string) :
  forall u u' : Upheld.t,
    scan_clauses paren_wrap clauses u = Ok u' -> defaults_of u' = defaults_of u.
Proof.
  induction clauses as [|cl rest IH]; intros u u' H.
  - simpl in H. now inversion H.
  - simpl in H. destruct (Shlex.shlex cl) as [cs|]; [|discriminate]. simpl in H.
    destruct (scan_clause paren_wrap cs 0 cs u) as [u1|] eqn:H1; [|discriminate].
    simpl in H. apply scan_clause_keeps_defaults in H1. apply IH in H. congruence.
Qed.

(** Whatever [filter_extraction] returns, the column generated with a
    default does not come back with it. *)
Lemma default_lost_for_any_wrapper
    (filter_extraction : string -> list string -> list string * gmap string string * string)
    (cols' : list Column.t) :
  extract_table Absent.SQLITETYPES filter_extraction
    (Absent.Column_of_row Absent.is_integer_type "cascade")
    (create_table (generate [Sample.with_default])) = Ok cols' ->
  same_descriptors [Sample.with_default] cols' = false.
Proof.
  unfold extract_table.
  replace (basic_extract Absent.SQLITETYPES (create_table (generate [Sample.with_default])))
    with (Ok (@nil Column.t, [("a", bare_row "a" "text")])) by (vm_compute; reflexivity).
  simpl bind.
  replace (Shlex.shlex (body_of (create_table (generate [Sample.with_default]))))
    with (Ok ["a"; "text"; "default"; "'x'"]) by (vm_compute; reflexivity).
  simpl bind.
  destruct (filter_extraction _ _) as [[keys paren_wrap] filtered].
  destruct (scan_clauses paren_wrap _ _) as [u'|] eqn:Hscan; [|discriminate].
  apply scan_clauses_keeps_defaults in Hscan.
  destruct u' as [|[k r] [|kv u']]; try discriminate Hscan.
  unfold defaults_of in Hscan. simpl in Hscan. inversion Hscan as [[Hk Hd]]. clear Hscan.
  simpl. unfold Absent.Column_of_row. rewrite Hd.
  destruct (r_appended r) as [|d [|up [|x [|y l]]]]; unfold Absent.Column_init;
    cbn [andb];
    try (destruct (Str.nonempty x && _));
    simpl; intros H; inversion H; subst cols';
    simpl; unfold same_descriptor; simpl; now rewrite !andb_false_r.
Qed.

(** Lists that do come back: plain and constrained columns, a foreign key. *)
Example round_trip_of_plain_columns :
  round_trips [Sample.plain "a" "integer"; Sample.strict; Sample.user_ref] = true.
Proof. vm_compute; reflexivity. Qed.

(** C1, at the failing inputs. A column with a default is generated with
    the keyword [default], which the parser does not look for: the
    descriptor comes back without its default, and it does so whatever
    [filter_extraction] returns. A sole primary column is generated with the
    inline marker, which Phase 2 reads as a table-level clause naming no
    column: parsing raises the conflict error. *)
Theorem C1_round_trip_loses_default_and_inline_key :
  generate [Sample.with_default] = "a text default 'x'"
  /\ parse (create_table (generate [Sample.with_default])) = Ok [Sample.plain "a" "text"]
  /\ round_trips [Sample.with_default] = false
  /\ generate [Sample.sole_primary] = "id integer primary key"
  /\ parse (create_table (generate [Sample.sole_primary])) = Raise conflict
  /\ round_trips [Sample.sole_primary] = false
  /\ (forall filter_extraction cols',
        extract_table Absent.SQLITETYPES filter_extraction
          (Absent.Column_of_row Absent.is_integer_type "cascade")
          (create_table (generate [Sample.with_default])) = Ok cols' ->
        same_descriptors [Sample.with_default] cols' = false).
Proof.
  do 6 (split; [vm_compute; reflexivity|]).
  apply default_lost_for_any_wrapper.
Qed.

(** C5, at the failing input. Two primary columns are generated without
    inline marker and with one table-level clause naming both in input
    order; parsing it back splits the group at the comma, keeps the blank
    before the second name, and fails looking that name up. *)
Theorem C5_composite_key_not_parsed_back :
  generate [Sample.key_a; Sample.key_b] = "a integer, b integer, primary key (a, b)"
  /\ parse (create_table (generate [Sample.key_a; Sample.key_b])) = Raise (KeyError " b")
  /\ parse "create table t (a integer, b integer, primary key (a,b))"
     = Ok [Sample.key_a; Sample.key_b].
Proof. repeat split; vm_compute; reflexivity. Qed.

(** C7, at the failing inputs. The inline set and the set the table-level
    clause names are equal, in the same order or not, and the parser raises
    the conflict error all the same: Phase 2 scans the column definition
    first, and takes what follows its [primary key] for the named columns.
    It does so without any table-level clause as well. *)
Theorem C7_agreeing_primary_keys_rejected :
  same_names (phase1_primaries "create table t (a integer primary key, primary key (a))")
             (map unquote (names_of_wrap "(a)")) = true
  /\ parse "create table t (a integer primary key, primary key (a))" = Raise conflict
  /\ same_names
       (phase1_primaries
          "create table t (a integer primary key, b integer primary key, primary key (b,a))")
       (map unquote (names_of_wrap "(b,a)")) = true
  /\ parse "create table t (a integer primary key, b integer primary key, primary key (b,a))"
     = Raise conflict
  /\ parse "create table t (a integer primary key)" = Raise conflict.
Proof. repeat split; vm_compute; reflexivity. Qed.

(** A table-level clause that names the inline primary columns changes
    nothing and raises nothing there: the comparison is one of sets. *)
Lemma agreeing_clause_is_redundant
    (paren_wrap : gmap string string) (column_shlexed : list string) (tindex : nat)
    (wrap : string) (upheld : Upheld.t) :
  wrap_after paren_wrap column_shlexed tindex = Ok wrap ->
  inline_primaries upheld <> ∅ ->
  table_level (names_of_wrap wrap) = inline_primaries upheld ->
  on_primary paren_wrap column_shlexed tindex upheld = Ok upheld.
Proof.
  intros Hwrap Hne Hsame. unfold on_primary. rewrite Hwrap. simpl.
  rewrite (bool_decide_eq_false_2 _ Hne). simpl.
  rewrite bool_decide_eq_true_2; [reflexivity | now symmetry].
Qed.

Lemma agreeing_clause_is_redundant_witness :
  on_primary {[ ":wrap0" := "(b,a)" ]} ["primary"; "key"; ":"; "wrap0"] 0
    [("a", set_primary (bare_row "a" "integer")); ("b", set_primary (bare_row "b" "integer"))]
  = Ok [("a", set_primary (bare_row "a" "integer"));
        ("b", set_primary (bare_row "b" "integer"))].
Proof.
  apply (agreeing_clause_is_redundant _ _ _ "(b,a)").
  - vm_compute; reflexivity.
  - differ_by_computation.
  - agree_by_computation.
Defined.

(** With two or more primary columns no column definition carries the
    inline marker, and one table-level clause lists the primary columns in
    their input order. *)
Lemma composite_key_generation
    (DM SA : gmap string string) (cols : list Column.t)
    (override : option (gmap string string)) :
  (2 <= primary_count cols)%nat ->
  extract_table_creations DM SA cols override =
    Str.strip_ends
      (concat_text
         (map (render SA)
            (map (fun c => ColumnDef c (resolve_type_spec DM override (Column.type c)) false)
                 cols
             ++ [TablePrimaryKey (filter (fun col => Column.primary col = true) cols)]
             ++ table_foreign_keys cols)%list))
  /\ render SA (TablePrimaryKey (filter (fun col => Column.primary col = true) cols)) =
     " primary key ("
       ++ Str.join ", " (map Column.name (filter (fun col => Column.primary col = true) cols))
       ++ "),".
Proof.
  intros Hpc. split; [|reflexivity].
  rewrite generator_refines_spec. unfold clauses_spec, table_primary_key, column_defs.
  replace (2 <=? primary_count cols)%nat with true by (symmetry; now apply Nat.leb_le).
  replace (primary_count cols =? 1)%nat with false by (symmetry; apply Nat.eqb_neq; lia).
  do 3 f_equal. f_equal. apply map_ext. intros c.
  now rewrite andb_false_r, resolve_type_merged.
Qed.

Lemma composite_key_generation_witness :
  extract_table_creations Absent.DEFAULT_MAPPINGS Absent.SQL_ACTIONS
    [Sample.key_a; Sample.user_ref; Sample.key_b] None =
    Str.strip_ends
      (concat_text
         (map (render Absent.SQL_ACTIONS)
            [ColumnDef Sample.key_a "integer" false;
             ColumnDef Sample.user_ref "integer" false;
             ColumnDef Sample.key_b "integer" false;
             TablePrimaryKey [Sample.key_a; Sample.key_b];
             TableForeignKey Sample.user_ref]))
  /\ render Absent.SQL_ACTIONS (TablePrimaryKey [Sample.key_a; Sample.key_b])
     = " primary key (a, b),".
Proof.
  apply (composite_key_generation Absent.DEFAULT_MAPPINGS Absent.SQL_ACTIONS
           [Sample.key_a; Sample.user_ref; Sample.key_b] None).
  vm_compute. lia.
Defined.

Lemma C6_witness :
  exists defs pk fks : list clause,
    generate [Sample.key_a; Sample.user_ref] =
      Str.strip_ends (concat_text (map (render Absent.SQL_ACTIONS) (defs ++ pk ++ fks)%list))
    /\ length defs = 2%nat
    /\ Forall (fun cl => exists c' ctype inl, cl = ColumnDef c' ctype inl) defs
    /\ Forall (fun cl => exists ps, cl = TablePrimaryKey ps) pk
    /\ TableForeignKey Sample.user_ref ∈ fks
    /\ render Absent.SQL_ACTIONS (TableForeignKey Sample.user_ref) =
       " foreign key (u) references users (id) on delete cascade on update restrict,".
Proof.
  apply (C6_foreign_key_clause_emitted Absent.DEFAULT_MAPPINGS Absent.SQL_ACTIONS
           [Sample.key_a; Sample.user_ref] None Sample.user_ref "users" "id").
  - apply list_elem_of_further, list_elem_of_here.
  - reflexivity.
Defined.

(** ** Construction of a descriptor (C3) *)




(** * Further properties of the generator *)

(** The column loop and what follows it read a column only through its
    definition text, its primary flag, whether it carries a target, its name
    and its foreign-key clause. *)
Lemma step1_map (f : Column.t -> Column.t) (maps : gmap string string) (pc : nat)
    (cols : list Column.t) :
  (forall c,
      _process_column_constraints (f c) (dict_get maps (Column.type (f c)) (Column.type (f c))) pc
      = _process_column_constraints c (dict_get maps (Column.type c) (Column.type c)) pc) ->
  (forall c, Column.primary (f c) = Column.primary c) ->
  (forall c, Column.reference (f c) = Column.reference c) ->
  forall (s : string) (ps fs : list Column.t) (s1 : string) (ps1 fs1 : list Column.t),
    _iterate_etbc_step1 cols s ps fs maps pc = (s1, ps1, fs1) ->
    _iterate_etbc_step1 (map f cols) s (map f ps) (map f fs) maps pc
    = (s1, map f ps1, map f fs1).
Proof.
  intros Htext Hprim Href.
  induction cols as [|c cols IH]; intros s ps fs s1 ps1 fs1 H.
  - simpl in *. now inversion H.
  - simpl in H. apply IH in H. rewrite <- H. clear H IH.
    simpl map at 1. simpl _iterate_etbc_step1. rewrite Htext, Hprim.
    f_equal.
    + destruct (Column.primary c), (negb (pc =? 1)%nat); simpl; try reflexivity.
      now rewrite map_app.
    + unfold Column.raw_source. rewrite Href.
      destruct (truthy_opt _); [now rewrite map_app | reflexivity].
Qed.

Lemma finish_map (f : Column.t -> Column.t) (SA : gmap string string) (s : string)
    (ps fs : list Column.t) :
  (forall c, Column.name (f c) = Column.name c) ->
  (forall c, foreign_key_clause SA (f c) = foreign_key_clause SA c) ->
  finish SA s (map f ps) (map f fs) = finish SA s ps fs.
Proof.
  intros Hname Hfk. unfold finish.
  assert (Hfold : forall l t,
             fold_left (fun s column => s ++ foreign_key_clause SA column) (map f l) t =
             fold_left (fun s column => s ++ foreign_key_clause SA column) l t).
  { induction l as [|c l IHl]; intros t; [reflexivity|]. simpl. now rewrite Hfk, IHl. }
  rewrite Hfold. destruct ps as [|p ps]; [reflexivity|].
  simpl map. unfold primary_key_clause. simpl map. rewrite Hname, map_map.
  replace (map (fun x => Column.name (f x)) ps) with (map Column.name ps);
    [reflexivity|].
  apply map_ext. intros c. symmetry. apply Hname.
Qed.

Lemma primary_count_map (f : Column.t -> Column.t) (cols : list Column.t) :
  (forall c, Column.primary (f c) = Column.primary c) ->
  primary_count (map f cols) = primary_count cols.
Proof.
  intros Hprim. unfold primary_count.
  induction cols as [|c cols IH]; [reflexivity|].
  simpl map. rewrite !filter_cons. rewrite Hprim.
  destruct (decide (Column.primary c = true)); simpl; now rewrite IH.
Qed.

(** The generator returns the same text for [cols] and for [map f cols]
    when [f] keeps what the generator reads. *)
Lemma generator_map (f : Column.t -> Column.t) (DM SA : gmap string string)
    (cols : list Column.t) (override : option (gmap string string)) :
  (forall c ctype,
      _process_column_constraints (f c) ctype (primary_count cols)
      = _process_column_constraints c ctype (primary_count cols)) ->
  (forall c, Column.type (f c) = Column.type c) ->
  (forall c, Column.primary (f c) = Column.primary c) ->
  (forall c, Column.reference (f c) = Column.reference c) ->
  (forall c, Column.name (f c) = Column.name c) ->
  (forall c, foreign_key_clause SA (f c) = foreign_key_clause SA c) ->
  extract_table_creations DM SA (map f cols) override =
  extract_table_creations DM SA cols override.
Proof.
  intros Htext Htype Hprim Href Hname Hfk.
  rewrite !extract_unfold. cbv zeta. fold (primary_count (map f cols)) (primary_count cols).
  rewrite (primary_count_map f cols Hprim).
  destruct (_iterate_etbc_step1 cols "" [] [] _ _) as [[s ps] fs] eqn:Hrun.
  apply (step1_map f) in Hrun; try assumption.
  - simpl map in Hrun. rewrite Hrun. now apply finish_map.
  - intros c. rewrite Htype. apply Htext.
Qed.

(** [auto_increment] reaches the generated text only from the column that
    is the one primary column of the list: on every other column it is
    ignored, and nothing is raised. *)
Theorem auto_increment_only_on_sole_primary
    (DM SA : gmap string string) (cols : list Column.t)
    (override : option (gmap string string)) :
  extract_table_creations DM SA (map (effective_auto_increment (primary_count cols)) cols)
                          override
  = extract_table_creations DM SA cols override.
Proof.
  apply generator_map; intros c; try intros ctype;
    unfold effective_auto_increment;
    try (destruct (Column.primary c && (primary_count cols =? 1)%nat); reflexivity).
  destruct (Column.primary c && (primary_count cols =? 1)%nat) eqn:Hsole; [reflexivity|].
  unfold _process_column_constraints. simpl.
  change (Column.primary (without_auto_increment c)) with (Column.primary c).
  now rewrite Hsole.
Qed.

(** A default that is false as a truth value (0, the empty text, [False])
    is generated like no default at all: the clause is left out. *)
Theorem falsy_default_is_not_generated
    (DM SA : gmap string string) (cols : list Column.t)
    (override : option (gmap string string)) :
  extract_table_creations DM SA (map effective_default cols) override
  = extract_table_creations DM SA cols override.
Proof.
  apply generator_map; intros c; try intros ctype;
    unfold effective_default;
    try (destruct (PyVal.truthy (Column.default c)); reflexivity).
  destruct (PyVal.truthy (Column.default c)) eqn:Ht; [reflexivity|].
  unfold _process_column_constraints. simpl. now rewrite Ht.
Qed.

Lemma str_length_app (a b : string) :
  String.length (a ++ b) = (String.length a + String.length b)%nat.
Proof.
  induction a as [|x a IH]; [reflexivity|].
  rewrite str_app_cons. simpl. now rewrite IH.
Qed.

Lemma str_take_app (a b : string) : Str.take (String.length a) (a ++ b) = a.
Proof.
  induction a as [|x a IH]; [now destruct b|].
  rewrite str_app_cons. simpl. now rewrite IH.
Qed.

(** [s[1:-1]] of a text drops its first and its last character. *)
Lemma strip_ends_between (c d : ascii) (x : string) :
  Str.strip_ends (String c (x ++ String d "")) = x.
Proof.
  unfold Str.strip_ends, Str.slice_to_last. simpl.
  rewrite str_length_app. simpl.
  replace (String.length x + 1 - 0 - 1)%nat with (String.length x) by lia.
  apply str_take_app.
Qed.

Lemma accumulated_clauses (DM SA : gmap string string) (cols : list Column.t)
    (override : option (gmap string string)) :
  accumulated_text DM SA cols override =
  concat_text (map (render SA) (clauses_spec (_get_type_mappings DM override) cols)).
Proof.
  unfold accumulated_text, process_columns, init.
  cbn [columns type_mappings primaries foreigns string_].
  fold (primary_count cols). rewrite (step1_clauses SA).
  rewrite (primaries_at_least_two _ cols eq_refl).
  unfold add_primary_keys, add_foreign_keys.
  cbn [columns type_mappings primaries foreigns string_ app].
  unfold clauses_spec, table_primary_key, table_foreign_keys.
  rewrite !map_app, !concat_text_app.
  destruct (2 <=? primary_count cols)%nat eqn:Hpc.
  - destruct (filter _ cols) as [|p ps] eqn:Hf.
    + exfalso. unfold primary_count in Hpc. rewrite Hf in Hpc. discriminate.
    + cbn [columns type_mappings primaries foreigns string_].
      rewrite foreign_keys_text.
      change (concat_text (map (render SA) [TablePrimaryKey (p :: ps)]))
        with (primary_key_clause (p :: ps) ++ "").
      rewrite str_app_nil_r, !str_app_assoc. reflexivity.
  - cbn [columns type_mappings primaries foreigns string_].
    rewrite foreign_keys_text. reflexivity.
Qed.

Lemma render_ends_with_comma (SA : gmap string string) (cl : clause) :
  exists x, render SA cl = x ++ ",".
Proof.
  destruct cl as [c ctype pk|ps|c]; simpl.
  - eexists. now rewrite <- str_app_assoc.
  - unfold primary_key_clause.
    exists (" primary key (" ++ Str.join ", " (map Column.name ps) ++ ")").
    now rewrite !str_app_assoc.
  - unfold foreign_key_clause.
    exists (" foreign key (" ++ Column.name c ++ ") references "
              ++ Column.source c ++ " (" ++ Column.source_column c ++ ")"
              ++ " on delete " ++ _iterate_sql_action SA (Column.on_delete c)
              ++ " on update " ++ _iterate_sql_action SA (Column.on_update c)).
    now rewrite !str_app_assoc.
Qed.

Lemma clauses_end_with_comma (SA : gmap string string) (cls : list clause) :
  cls <> [] -> exists x, concat_text (map (render SA) cls) = x ++ ",".
Proof.
  induction cls as [|cl cls IH]; [congruence|]. intros _.
  destruct cls as [|cl' cls].
  - simpl. unfold concat_text. simpl. rewrite str_app_nil_r. apply render_ends_with_comma.
  - destruct IH as [x Hx]; [congruence|].
    exists (render SA cl ++ x). simpl map in *. unfold concat_text in *.
    simpl fold_right in *. rewrite Hx. now rewrite str_app_assoc.
Qed.

(** The slice taken by [extract] removes the blank that opens the first
    column definition and the comma that closes the last clause, and nothing
    else; for no column at all the result is the empty text. *)
Theorem extract_slice_removes_blank_and_comma
    (DM SA : gmap string string) (cols : list Column.t)
    (override : option (gmap string string)) :
  match cols with
  | [] => extract_table_creations DM SA cols override = ""
  | _ :: _ =>
      " " ++ extract_table_creations DM SA cols override ++ ","
      = accumulated_text DM SA cols override
  end.
Proof.
  destruct cols as [|c cols]; [reflexivity|].
  assert (Hout : extract_table_creations DM SA (c :: cols) override
                 = Str.strip_ends (accumulated_text DM SA (c :: cols) override))
    by reflexivity.
  rewrite Hout, accumulated_clauses.
  destruct (clauses_end_with_comma SA
              (clauses_spec (_get_type_mappings DM override) (c :: cols))) as [x Hx].
  { unfold clauses_spec, column_defs. simpl. congruence. }
  rewrite Hx.
  assert (Hhead : exists y, x ++ "," = String " " y).
  { rewrite <- Hx. unfold clauses_spec, column_defs. simpl map. unfold concat_text.
    simpl fold_right. unfold column_text. eexists.
    rewrite !str_app_assoc. rewrite str_app_cons. reflexivity. }
  destruct Hhead as [y Hy].
  destruct x as [|a x].
  - simpl in Hy. inversion Hy.
  - rewrite str_app_cons in Hy. inversion Hy; subst a.
    rewrite !(str_app_cons " " x ","), strip_ends_between. reflexivity.
Qed.

(** * Further properties of the parser: Phase 1 *)

Lemma find_from_absent (c : ascii) (s : string) (i : Z) :
  PyVal.contains c s = false -> Str.find_from c s i = (-1)%Z.
Proof.
  revert i. induction s as [|a s IH]; intros i H; [reflexivity|].
  simpl in *. apply orb_false_iff in H as [Ha Hs]. rewrite Ha. now apply IH.
Qed.

Lemma find_from_first (c : ascii) (pre rest : string) (i : Z) :
  PyVal.contains c pre = false ->
  Str.find_from c (pre ++ String c rest) i = (i + Z.of_nat (String.length pre))%Z.
Proof.
  revert i. induction pre as [|a pre IH]; intros i H.
  - simpl. rewrite Ascii.eqb_refl. lia.
  - simpl in H. apply orb_false_iff in H as [Ha Hs].
    rewrite str_app_cons. simpl Str.find_from. rewrite Ha. rewrite IH by assumption.
    simpl String.length. lia.
Qed.

Lemma str_drop_app (a b : string) : Str.drop (String.length a) (a ++ b) = b.
Proof.
  induction a as [|x a IH]; [now destruct b|].
  rewrite str_app_cons. simpl. exact IH.
Qed.

Lemma body_of_wrapped (pre body : string) (last : ascii) :
  PyVal.contains "(" pre = false ->
  body_of (pre ++ "(" ++ body ++ String last "") = body.
Proof.
  intros Hpre. unfold body_of, Str.find.
  change (pre ++ "(" ++ body ++ String last "")
    with (pre ++ String "(" (body ++ String last "")).
  rewrite find_from_first by assumption.
  replace (Z.to_nat (0 + Z.of_nat (String.length pre) + 1)) with (S (String.length pre)) by lia.
  unfold Str.slice_to_last.
  replace (pre ++ String "(" (body ++ String last ""))
    with ((pre ++ "(") ++ body ++ String last "") by (now rewrite str_app_assoc).
  replace (S (String.length pre)) with (String.length (pre ++ "("))
    by (rewrite str_length_app; simpl; lia).
  rewrite str_drop_app, !str_length_app. simpl String.length.
  replace (String.length pre + 1 + (String.length body + 1) - 1 - (String.length pre + 1))%nat
    with (String.length body) by lia.
  apply str_take_app.
Qed.

(** The body the parser works on is what lies between the first opening
    parenthesis and the last character of the statement, whatever that
    character is. *)
Theorem body_is_between_first_paren_and_last_char (pre body : string) (last : ascii) :
  PyVal.contains "(" pre = false ->
  body_of (pre ++ "(" ++ body ++ String last "") = body.
Proof. exact (body_of_wrapped pre body last). Qed.

Lemma body_is_between_first_paren_and_last_char_witness :
  body_of "create table t (a integer, b text)" = "a integer, b text".
Proof.
  apply (body_is_between_first_paren_and_last_char "create table t " "a integer, b text" ")").
  reflexivity.
Defined.

(** A statement without any opening parenthesis is read as a body whose
    last character is dropped. *)
Theorem body_without_paren_loses_last_char (s : string) :
  PyVal.contains "(" s = false ->
  body_of s = Str.take (String.length s - 1) s.
Proof.
  intros H. unfold body_of, Str.find. rewrite find_from_absent by assumption.
  unfold Str.slice_to_last. simpl Z.to_nat. simpl Str.drop.
  now rewrite Nat.sub_0_r.
Qed.

Lemma body_without_paren_loses_last_char_witness :
  body_of "a integer" = Str.take (String.length "a integer" - 1) "a integer".
Proof.
  apply (body_without_paren_loses_last_char "a integer"). reflexivity.
Defined.

(** Phase 1 stops at the first fragment whose second token is not a type
    name: the fragments after it are never read, column definitions
    included. *)
Theorem phase1_stops_at_first_constraint
    (T : gset string) (frag : string) (toks : list string) (second : string)
    (pre rest : list string) (upheld : Upheld.t) :
  Shlex.shlex frag = Ok toks ->
  PyList.get toks 1 = Ok second ->
  second ∉ T ->
  basic_extract_loop T (pre ++ frag :: rest) upheld = basic_extract_loop T pre upheld.
Proof.
  intros Hlex Hsecond Hty. revert upheld.
  induction pre as [|constr pre IH]; intros upheld.
  - simpl. rewrite Hlex. simpl. rewrite Hsecond. simpl.
    now rewrite (bool_decide_eq_false_2 _ Hty).
  - simpl. destruct (Shlex.shlex constr) as [ts|]; [|reflexivity]. simpl.
    destruct (PyList.get ts 1) as [snd_|]; [|reflexivity]. simpl.
    destruct (negb (bool_decide (snd_ ∈ T))); [reflexivity|].
    destruct (PyList.get ts 0) as [name|]; [|reflexivity]. simpl.
    destruct (length ts =? 2)%nat; [apply IH|].
    destruct (inline_tokens ts ts inline0); [|reflexivity]. simpl. apply IH.
Qed.

Lemma phase1_stops_at_first_constraint_witness :
  basic_extract_loop Absent.SQLITETYPES
    (["a integer"] ++ " primary key (a)" :: [" b text"]) []
  = basic_extract_loop Absent.SQLITETYPES ["a integer"] [].
Proof.
  apply (phase1_stops_at_first_constraint Absent.SQLITETYPES " primary key (a)"
           ["primary"; "key"; "("; "a"; ")"] "key").
  - reflexivity.
  - reflexivity.
  - intros H. pose proof (bool_decide_eq_true_2 _ H) as H'. vm_compute in H'. discriminate H'.
Defined.

Lemma set_keys (u : Upheld.t) (key : string) (v : row) :
  keys_of (Upheld.set u key v) =
  if bool_decide (key ∈ keys_of u) then keys_of u else (keys_of u ++ [key])%list.
Proof.
  unfold keys_of. induction u as [|[k w] u IH]; [reflexivity|].
  cbn [Upheld.set map fst]. destruct (String.eqb_spec k key) as [->|Hne].
  - cbn [map fst]. rewrite bool_decide_eq_true_2; [reflexivity | apply list_elem_of_here].
  - cbn [map fst]. rewrite IH.
    destruct (bool_decide (key ∈ map fst u)) eqn:Hin.
    + apply bool_decide_eq_true_1 in Hin.
      rewrite bool_decide_eq_true_2; [reflexivity | now apply list_elem_of_further].
    + apply bool_decide_eq_false_1 in Hin.
      rewrite bool_decide_eq_false_2; [reflexivity|].
      intros H. apply elem_of_cons in H as [H|H]; [congruence | contradiction].
Qed.

Lemma set_keeps_nodup (u : Upheld.t) (key : string) (v : row) :
  NoDup (keys_of u) -> NoDup (keys_of (Upheld.set u key v)).
Proof.
  intros Hnd. rewrite set_keys.
  destruct (bool_decide (key ∈ keys_of u)) eqn:Hin; [assumption|].
  apply bool_decide_eq_false_1 in Hin.
  apply NoDup_app. split; [assumption|]. split.
  - intros x Hx Hx'. apply list_elem_of_singleton in Hx'. now subst.
  - apply NoDup_singleton.
Qed.

Lemma set_keeps_stored (P : string * row -> Prop) (u : Upheld.t) (key : string) (v : row) :
  Forall P u -> P (key, v) -> (forall k w, P (k, w) -> (k =? key)%string = true -> P (k, v)) ->
  Forall P (Upheld.set u key v).
Proof.
  intros Hu Hv Hk. induction u as [|[k w] u IH]; [now repeat constructor|].
  cbn [Upheld.set]. inversion Hu; subst.
  destruct (String.eqb_spec k key) as [->|Hne]; constructor; auto.
Qed.

Lemma phase1_loop_invariant (T : gset string) (constrs : list string) :
  forall u u' : Upheld.t,
    NoDup (keys_of u) -> Forall (stored_by_phase1 T) u ->
    basic_extract_loop T constrs u = Ok u' ->
    NoDup (keys_of u') /\ Forall (stored_by_phase1 T) u'.
Proof.
  induction constrs as [|constr rest IH]; intros u u' Hnd Hst H.
  - simpl in H. inversion H; subst. now split.
  - simpl in H. destruct (Shlex.shlex constr) as [ts|]; [|discriminate]. simpl in H.
    destruct (PyList.get ts 1) as [second|]; [|discriminate]. simpl in H.
    destruct (bool_decide (second ∈ T)) eqn:Hty; simpl in H;
      [|inversion H; subst; now split].
    apply bool_decide_eq_true_1 in Hty.
    destruct (PyList.get ts 0) as [name|]; [|discriminate]. simpl in H.
    assert (Hstep : forall r, r_name r = name -> r_type r = second -> r_appended r = [] ->
              basic_extract_loop T rest (Upheld.set u name r) = Ok u' ->
              NoDup (keys_of u') /\ Forall (stored_by_phase1 T) u').
    { intros r Hn Ht Ha Hrun. apply IH in Hrun; [assumption | now apply set_keeps_nodup |].
      apply set_keeps_stored; [assumption | | ].
      - unfold stored_by_phase1. simpl. rewrite Hn, Ht, Ha. auto.
      - intros k w _ Hk. apply String.eqb_eq in Hk. subst k.
        unfold stored_by_phase1. simpl. rewrite Hn, Ht, Ha. auto. }
    destruct (length ts =? 2)%nat.
    + now apply (Hstep (bare_row name second)).
    + destruct (inline_tokens ts ts inline0) as [st|]; [|discriminate]. simpl in H.
      now apply (Hstep (row_of_inline name second st)).
Qed.

Lemma phase1_loop_reads (T : gset string) (constrs : list string) :
  forall u u' : Upheld.t,
    basic_extract_loop T constrs u = Ok u' ->
    exists read,
      Forall2 read_as (firstn (length read) constrs) read
      /\ Forall (fun kv => r_type (snd kv) ∈ T) read
      /\ stops_reading T constrs (length read)
      /\ u' = store_all read u.
Proof.
  induction constrs as [|constr rest IH]; intros u u' H.
  - simpl in H. inversion H; subst. exists [].
    split; [constructor|]. split; [constructor|]. split; [now left | reflexivity].
  - simpl in H. destruct (Shlex.shlex constr) as [ts|] eqn:Hlex; [|discriminate].
    simpl in H.
    destruct (PyList.get ts 1) as [second|] eqn:Hsecond; [|discriminate]. simpl in H.
    destruct (bool_decide (second ∈ T)) eqn:Htype; simpl in H.
    2:{ inversion H; subst. exists [].
        split; [constructor|]. split; [constructor|]. split; [|reflexivity].
        right. exists constr, ts, second. repeat split; try assumption.
        intros Hin. rewrite (bool_decide_eq_true_2 _ Hin) in Htype. discriminate. }
    apply bool_decide_eq_true_1 in Htype.
    destruct (PyList.get ts 0) as [name|] eqn:Hname; [|discriminate]. simpl in H.
    assert (Hstep : forall r, r_name r = name -> r_type r = second ->
              basic_extract_loop T rest (Upheld.set u name r) = Ok u' ->
              exists read,
                Forall2 read_as (firstn (length read) (constr :: rest)) read
                /\ Forall (fun kv => r_type (snd kv) ∈ T) read
                /\ stops_reading T (constr :: rest) (length read)
                /\ u' = store_all read u).
    { intros r Hn Ht Hrun. destruct (IH _ _ Hrun) as [read [Hread [Hty [Hstop Hu]]]].
      exists ((name, r) :: read). cbn [length firstn].
      split; [|split; [|split; [|exact Hu]]].
      - constructor; [|exact Hread]. exists ts. cbn [fst snd]. rewrite Ht. auto.
      - constructor; [cbn [snd]; now rewrite Ht | exact Hty].
      - destruct Hstop as [Hend | Hmore]; [left; cbn [length]; now rewrite Hend|].
        right. exact Hmore. }
    destruct (length ts =? 2)%nat.
    + now apply (Hstep (bare_row name second)).
    + destruct (inline_tokens ts ts inline0) as [st|]; [|discriminate]. simpl in H.
      now apply (Hstep (row_of_inline name second st)).
Qed.

Lemma keys_of_store_all (read : list (string * row)) :
  forall u : Upheld.t,
    keys_of (store_all read u) = first_occurrences_from (keys_of u) (map fst read).
Proof.
  unfold store_all, first_occurrences_from.
  induction read as [|[k v] read IH]; intros u; [reflexivity|].
  cbn [fold_left map fst snd]. rewrite IH, set_keys. reflexivity.
Qed.

Lemma phase1_returns_no_descriptor
    (T : gset string) (table_creation : string) (cols : list Column.t) (upheld : Upheld.t) :
  basic_extract T table_creation = Ok (cols, upheld) -> cols = [].
Proof.
  unfold basic_extract. intros H.
  destruct (basic_extract_loop T _ []) as [u|]; [|discriminate].
  simpl in H. now inversion H.
Qed.

(** What Phase 1 returns when it returns: no descriptor yet, and the
    dictionary obtained by storing, in order, one column per fragment of the
    body, up to the end or to the first fragment whose second token is no
    type name, each under the first token of its fragment, with the second
    token as type. Hence the keys are the names read, every name once, at
    the place of its first definition and with its last one, stored under
    its own name with a type name of the dialect and nothing appended. *)
Theorem phase1_result_is_well_formed
    (T : gset string) (table_creation : string) (cols : list Column.t) (upheld : Upheld.t) :
  basic_extract T table_creation = Ok (cols, upheld) ->
  cols = []
  /\ NoDup (keys_of upheld)
  /\ Forall (stored_by_phase1 T) upheld
  /\ exists read,
       Forall2 read_as (firstn (length read) (Str.split "," (body_of table_creation))) read
       /\ Forall (fun kv => r_type (snd kv) ∈ T) read
       /\ stops_reading T (Str.split "," (body_of table_creation)) (length read)
       /\ upheld = store_all read []
       /\ keys_of upheld = first_occurrences (map fst read).
Proof.
  unfold basic_extract. intros H.
  destruct (basic_extract_loop T _ []) as [u|] eqn:Hloop; [|discriminate].
  simpl in H. inversion H; subst. split; [reflexivity|].
  assert (Hinv : NoDup (keys_of upheld) /\ Forall (stored_by_phase1 T) upheld)
    by (eapply (phase1_loop_invariant T); [ | | eassumption]; constructor).
  destruct Hinv as [Hnd Hst].
  split; [exact Hnd|]. split; [exact Hst|].
  destruct (phase1_loop_reads T _ _ _ Hloop) as [read [Hread [Hty [Hstop Hu]]]].
  exists read. split; [exact Hread|]. split; [exact Hty|]. split; [exact Hstop|].
  split; [exact Hu|].
  rewrite Hu. apply (keys_of_store_all read []).
Qed.

Lemma phase1_result_is_well_formed_witness :
  (@nil Column.t) = []
  /\ NoDup (keys_of [("a", row_of_inline "a" "text" (mkInline None None false false true false));
                     ("b", bare_row "b" "integer")])
  /\ Forall (stored_by_phase1 Absent.SQLITETYPES)
       [("a", row_of_inline "a" "text" (mkInline None None false false true false));
        ("b", bare_row "b" "integer")]
  /\ exists read,
       Forall2 read_as
         (firstn (length read)
            (Str.split "," (body_of "create table t (a integer, b integer, a text not null)")))
         read
       /\ Forall (fun kv => r_type (snd kv) ∈ Absent.SQLITETYPES) read
       /\ stops_reading Absent.SQLITETYPES
            (Str.split "," (body_of "create table t (a integer, b integer, a text not null)"))
            (length read)
       /\ [("a", row_of_inline "a" "text" (mkInline None None false false true false));
           ("b", bare_row "b" "integer")] = store_all read []
       /\ keys_of [("a", row_of_inline "a" "text" (mkInline None None false false true false));
                   ("b", bare_row "b" "integer")] = first_occurrences (map fst read).
Proof.
  apply (phase1_result_is_well_formed Absent.SQLITETYPES
           "create table t (a integer, b integer, a text not null)").
  vm_compute; reflexivity.
Defined.

(** * Further properties of the parser: Phase 2 *)

Lemma get_of_key (u : Upheld.t) (key : string) :
  key ∈ keys_of u -> exists v, Upheld.get u key = Ok v.
Proof.
  unfold keys_of. induction u as [|[k w] u IH]; intros H.
  - inversion H.
  - cbn [Upheld.get]. destruct (String.eqb_spec k key) as [->|Hne]; [eauto|].
    apply IH. cbn [map fst] in H. apply elem_of_cons in H as [H|H]; [congruence | assumption].
Qed.

Lemma get_only_of_key (u : Upheld.t) (key : string) :
  key ∉ keys_of u -> Upheld.get u key = Raise (KeyError key).
Proof.
  unfold keys_of. induction u as [|[k w] u IH]; intros H; [reflexivity|].
  cbn [Upheld.get]. cbn [map fst] in H. apply not_elem_of_cons in H as [Hne H].
  destruct (String.eqb_spec k key) as [->|_]; [congruence | now apply IH].
Qed.

Lemma get_is_key (u : Upheld.t) (key : string) (v : row) :
  Upheld.get u key = Ok v -> key ∈ keys_of u.
Proof.
  intros H. destruct (decide (key ∈ keys_of u)) as [Hin|Hout]; [assumption|].
  rewrite (get_only_of_key u key Hout) in H. discriminate.
Qed.

Lemma get_set_same (u : Upheld.t) (key : string) (v : row) :
  Upheld.get (Upheld.set u key v) key = Ok v.
Proof.
  induction u as [|[k w] u IH]; cbn [Upheld.set Upheld.get].
  - now rewrite String.eqb_refl.
  - destruct (String.eqb k key) eqn:Hk; cbn [Upheld.get]; now rewrite Hk.
Qed.

Lemma set_set (u : Upheld.t) (key : string) (v w : row) :
  Upheld.set (Upheld.set u key v) key w = Upheld.set u key w.
Proof.
  induction u as [|[k x] u IH]; cbn [Upheld.set].
  - now rewrite String.eqb_refl.
  - destruct (String.eqb k key) eqn:Hk; cbn [Upheld.set]; rewrite Hk; [reflexivity|].
    now rewrite IH.
Qed.

Section Frame.

(** Any reading [g] of a stored column that the three writes of Phase 2
    leave alone. *)
Context {A : Type} (g : row -> A).
Hypothesis g_set_primary : forall r, g (set_primary r) = g r.
Hypothesis g_set_foreign : forall s r, g (set_foreign s r) = g r.
Hypothesis g_append_action : forall a r, g (append_action a r) = g r.

Local Abbreviation readings u := (map (fun kv : string * row => (fst kv, g (snd kv))) u).

Lemma update_keeps_readings (u u' : Upheld.t) (key : string) (f : row -> row) :
  (forall r, g (f r) = g r) ->
  Upheld.update u key f = Ok u' -> readings u' = readings u.
Proof.
  intros Hf. unfold Upheld.update.
  destruct (Upheld.get u key) as [v|] eqn:Hget; [|discriminate].
  simpl. intros H. inversion H; subst u'. clear H.
  induction u as [|[k w] u IH]; [discriminate|].
  cbn [Upheld.get Upheld.set] in Hget |- *. destruct (String.eqb k key).
  - inversion Hget; subst w. cbn [map fst snd]. now rewrite Hf.
  - cbn [map fst snd]. now rewrite IH.
Qed.

Lemma mark_primaries_keeps_readings (names : list string) :
  forall u u' : Upheld.t, mark_primaries names u = Ok u' -> readings u' = readings u.
Proof.
  induction names as [|n names IH]; intros u u' H.
  - simpl in H. now inversion H.
  - simpl in H.
    destruct (Upheld.update u (unquote n) set_primary) as [u1|] eqn:H1; [|discriminate].
    simpl in H. apply update_keeps_readings in H1; [|assumption].
    apply IH in H. congruence.
Qed.

Lemma record_action_keeps_readings (kw : string) (cs : list string) (name : string)
    (u u' : Upheld.t) :
  record_action kw cs name u = Ok u' -> readings u' = readings u.
Proof.
  unfold record_action. destruct (PyList.mem kw cs); [|intros E; now inversion E].
  destruct (PyList.index kw cs); [|discriminate]. simpl.
  destruct (Upheld.get u name); [|discriminate]. simpl.
  destruct (PyList.get cs _); [|discriminate]. simpl.
  apply update_keeps_readings. intros r. apply g_append_action.
Qed.

Lemma on_foreign_keeps_readings (paren_wrap : gmap string string) (cs : list string)
    (tindex : nat) (u u' : Upheld.t) :
  on_foreign paren_wrap cs tindex u = Ok u' -> readings u' = readings u.
Proof.
  unfold on_foreign.
  destruct (wrap_after paren_wrap cs tindex) as [wrap|]; [|discriminate]. simpl.
  destruct (PyList.get cs _) as [key|]; [|discriminate]. simpl.
  destruct (wrap_get paren_wrap _) as [target|]; [|discriminate]. simpl.
  destruct (PyList.get cs _) as [tb|]; [|discriminate]. simpl.
  destruct (Upheld.update u _ _) as [u1|] eqn:H1; [|discriminate]. simpl.
  destruct (record_action "delete" cs _ u1) as [u2|] eqn:H2; [|discriminate]. simpl.
  intros H3.
  apply record_action_keeps_readings in H3, H2.
  apply update_keeps_readings in H1; [|intros r; apply g_set_foreign].
  congruence.
Qed.

Lemma scan_clause_keeps_readings (paren_wrap : gmap string string)
    (cs : list string) (tokens : list string) :
  forall (tindex : nat) (u u' : Upheld.t),
    scan_clause paren_wrap cs tindex tokens u = Ok u' -> readings u' = readings u.
Proof.
  induction tokens as [|token rest IH]; intros tindex u u' H.
  - simpl in H. now inversion H.
  - simpl in H. destruct (String.eqb (Str.lower token) "primary").
    + unfold on_primary in H.
      destruct (wrap_after paren_wrap cs tindex) as [wrap|]; [|discriminate]. simpl in H.
      destruct (negb (bool_decide (inline_primaries u = ∅))).
      * destruct (negb _); [discriminate | now inversion H].
      * now apply mark_primaries_keeps_readings in H.
    + destruct (String.eqb (Str.lower token) "foreign").
      * destruct (on_foreign paren_wrap cs tindex u) as [u1|] eqn:H1; [|discriminate].
        simpl in H. apply IH in H. apply on_foreign_keeps_readings in H1. congruence.
      * simpl in H. now apply IH in H.
Qed.

Lemma scan_clauses_keeps_readings (paren_wrap : gmap string string) (clauses : list string) :
  forall u u' : Upheld.t,
    scan_clauses paren_wrap clauses u = Ok u' -> readings u' = readings u.
Proof.
  induction clauses as [|cl rest IH]; intros u u' H.
  - simpl in H. now inversion H.
  - simpl in H. destruct (Shlex.shlex cl) as [cs|]; [|discriminate]. simpl in H.
    destruct (scan_clause paren_wrap cs 0 cs u) as [u1|] eqn:H1; [|discriminate].
    simpl in H. apply scan_clause_keeps_readings in H1. apply IH in H. congruence.
Qed.

End Frame.

(** Phase 2 never adds, drops, renames or reorders a column, and never
    changes the type, the unique and nullable flags or the default Phase 1
    recorded: it writes the primary flag, the foreign flag, the source and
    the appended actions only. *)
Theorem phase2_keeps_what_phase1_recorded
    (paren_wrap : gmap string string) (clauses : list string) (upheld upheld' : Upheld.t) :
  scan_clauses paren_wrap clauses upheld = Ok upheld' ->
  frames upheld' = frames upheld.
Proof.
  intros H. unfold frames.
  exact (scan_clauses_keeps_readings frame_of (fun r => eq_refl) (fun s r => eq_refl)
           (fun a r => eq_refl) paren_wrap clauses upheld upheld' H).
Qed.

Lemma phase2_keeps_what_phase1_recorded_witness :
  frames [("a", set_primary (bare_row "a" "integer"));
          ("b", append_action "restrict" (append_action "cascade"
                  (set_foreign "users/id" (bare_row "b" "integer"))))]
  = frames [("a", bare_row "a" "integer"); ("b", bare_row "b" "integer")].
Proof.
  apply (phase2_keeps_what_phase1_recorded
           {[ ":wrap0" := "(a)"; ":wrap1" := "(b)"; ":wrap2" := "(id)" ]}
           ["a integer"; " b integer"; " primary key :wrap0";
            " foreign key :wrap1 references users :wrap2 on delete cascade on update restrict"]).
  vm_compute; reflexivity.
Defined.

#[local] Set Warnings "-clear-no-such-hyp".

Lemma set_primary_adds_name (u : Upheld.t) (key : string) (v : row) :
  Upheld.get u key = Ok v ->
  inline_primaries (Upheld.set u key (set_primary v)) = {[ key ]} ∪ inline_primaries u.
Proof.
  unfold inline_primaries. induction u as [|[k w] u IH]; [discriminate|].
  cbn [Upheld.get Upheld.set]. destruct (String.eqb_spec k key) as [->|Hne]; intros H.
  - rewrite !filter_cons. cbn [snd].
    change (r_primary (set_primary v)) with true.
    destruct (decide (true = true)); [|congruence].
    destruct (decide (r_primary w = true)); cbn [map fst list_to_set]; set_solver.
  - rewrite !filter_cons. cbn [snd]. specialize (IH H).
    destruct (decide (r_primary w = true)); cbn [map fst list_to_set]; rewrite ?IH; set_solver.
Qed.

Lemma update_keeps_keys (u u' : Upheld.t) (key : string) (f : row -> row) :
  Upheld.update u key f = Ok u' -> keys_of u' = keys_of u.
Proof.
  unfold Upheld.update. destruct (Upheld.get u key) as [v|] eqn:Hget; [|discriminate].
  simpl. intros H. inversion H; subst u'. rewrite set_keys.
  rewrite bool_decide_eq_true_2; [reflexivity | eapply get_is_key; eassumption].
Qed.

Lemma mark_primaries_marks (names : list string) :
  forall u : Upheld.t,
    Forall (fun n => unquote n ∈ keys_of u) names ->
    exists u', mark_primaries names u = Ok u'
               /\ inline_primaries u' = inline_primaries u ∪ table_level names.
Proof.
  induction names as [|n names IH]; intros u Hall.
  - exists u. split; [reflexivity|]. unfold table_level. simpl. set_solver.
  - inversion Hall as [|? ? Hn Hrest]; subst.
    destruct (get_of_key u (unquote n) Hn) as [v Hv].
    simpl. unfold Upheld.update at 1. rewrite Hv. simpl.
    destruct (IH (Upheld.set u (unquote n) (set_primary v))) as [u' [Hrun Hset]].
    { rewrite set_keys. rewrite bool_decide_eq_true_2 by assumption. assumption. }
    exists u'. split; [assumption|].
    rewrite Hset, (set_primary_adds_name u (unquote n) v Hv).
    unfold table_level. simpl. set_solver.
Qed.

(** A table-level primary key met when no column has an inline marker, all
    of whose names are stored columns, marks exactly the named columns
    primary and changes nothing else: the keys and their order, and for
    every column its name, type, foreign flag, source, unique and nullable
    flags, default and appended actions stay as they were. *)
Theorem table_level_key_marks_named_columns
    (paren_wrap : gmap string string) (column_shlexed : list string) (tindex : nat)
    (wrap : string) (upheld : Upheld.t) :
  wrap_after paren_wrap column_shlexed tindex = Ok wrap ->
  inline_primaries upheld = ∅ ->
  Forall (fun n => unquote n ∈ keys_of upheld) (names_of_wrap wrap) ->
  exists upheld',
    on_primary paren_wrap column_shlexed tindex upheld = Ok upheld'
    /\ inline_primaries upheld' = table_level (names_of_wrap wrap)
    /\ unmarked upheld' = unmarked upheld.
Proof.
  intros Hwrap Hnone Hall.
  destruct (mark_primaries_marks _ upheld Hall) as [u' [Hrun Hset]].
  exists u'. unfold on_primary. rewrite Hwrap. simpl.
  rewrite (bool_decide_eq_true_2 _ Hnone). simpl.
  split; [assumption|]. split.
  - rewrite Hset, Hnone. set_solver.
  - unfold unmarked.
    exact (mark_primaries_keeps_readings all_but_primary (fun r => eq_refl) _ _ _ Hrun).
Qed.

Lemma table_level_key_marks_named_columns_witness :
  exists upheld',
    on_primary {[ ":wrap0" := "(a,'b')" ]} ["primary"; "key"; ":"; "wrap0"] 0
      [("a", bare_row "a" "integer");
       ("b", set_foreign "users/id" (bare_row "b" "integer"));
       ("c", bare_row "c" "text")] = Ok upheld'
    /\ inline_primaries upheld' = table_level (names_of_wrap "(a,'b')")
    /\ unmarked upheld'
       = unmarked [("a", bare_row "a" "integer");
                   ("b", set_foreign "users/id" (bare_row "b" "integer"));
                   ("c", bare_row "c" "text")].
Proof.
  apply (table_level_key_marks_named_columns _ _ _ "(a,'b')").
  - vm_compute; reflexivity.
  - agree_by_computation.
  - repeat constructor; refine (bool_decide_eq_true_1 _ _); vm_compute; reflexivity.
Defined.

Lemma mark_primaries_missing (pre : list string) (n : string) (post : list string) :
  forall u : Upheld.t,
    Forall (fun m => unquote m ∈ keys_of u) pre ->
    unquote n ∉ keys_of u ->
    mark_primaries (pre ++ n :: post) u = Raise (KeyError (unquote n)).
Proof.
  induction pre as [|m pre IH]; intros u Hpre Hn.
  - simpl. unfold Upheld.update. now rewrite (get_only_of_key u _ Hn).
  - inversion Hpre as [|? ? Hm Hrest]; subst.
    destruct (get_of_key u (unquote m) Hm) as [v Hv].
    simpl. unfold Upheld.update at 1. rewrite Hv. simpl.
    apply IH; rewrite set_keys, bool_decide_eq_true_2; assumption.
Qed.

(** A table-level primary key met when no column has an inline marker
    raises [KeyError] on the first of its names that is not a stored column;
    a name is compared as it stands between the commas, blanks included. *)
Theorem table_level_key_with_unknown_name_raises
    (paren_wrap : gmap string string) (column_shlexed : list string) (tindex : nat)
    (wrap : string) (upheld : Upheld.t) (pre : list string) (n : string) (post : list string) :
  wrap_after paren_wrap column_shlexed tindex = Ok wrap ->
  inline_primaries upheld = ∅ ->
  names_of_wrap wrap = (pre ++ n :: post)%list ->
  Forall (fun m => unquote m ∈ keys_of upheld) pre ->
  unquote n ∉ keys_of upheld ->
  on_primary paren_wrap column_shlexed tindex upheld = Raise (KeyError (unquote n)).
Proof.
  intros Hwrap Hnone Hnames Hpre Hn.
  unfold on_primary. rewrite Hwrap. simpl.
  rewrite (bool_decide_eq_true_2 _ Hnone). simpl.
  rewrite Hnames. now apply mark_primaries_missing.
Qed.

Lemma table_level_key_with_unknown_name_raises_witness :
  on_primary {[ ":wrap0" := "(a, b)" ]} ["primary"; "key"; ":"; "wrap0"] 0
    [("a", bare_row "a" "integer"); ("b", bare_row "b" "integer")]
  = Raise (KeyError " b").
Proof.
  apply (table_level_key_with_unknown_name_raises _ _ _ "(a, b)" _ ["a"] " b" []).
  - vm_compute; reflexivity.
  - agree_by_computation.
  - vm_compute; reflexivity.
  - repeat constructor; refine (bool_decide_eq_true_1 _ _); vm_compute; reflexivity.
  - intros H. pose proof (bool_decide_eq_true_2 _ H) as H'. vm_compute in H'. discriminate H'.
Defined.

Lemma scan_plain_clause (paren_wrap : gmap string string) (cs tokens : list string) :
  forall (tindex : nat) (u : Upheld.t),
    forallb (fun t => negb (is_keyword t)) tokens = true ->
    scan_clause paren_wrap cs tindex tokens u = Ok u.
Proof.
  induction tokens as [|t tokens IH]; intros tindex u H; [reflexivity|].
  simpl in H. apply andb_true_iff in H as [Ht H].
  unfold is_keyword in Ht. apply negb_true_iff, orb_false_iff in Ht as [Hp Hf].
  simpl. rewrite Hp, Hf. simpl. now apply IH.
Qed.

Lemma scan_plain_clauses (paren_wrap : gmap string string) (clauses : list string)
    (u : Upheld.t) :
  forallb plain_clause clauses = true ->
  scan_clauses paren_wrap clauses u = Ok u.
Proof.
  induction clauses as [|cl clauses IH]; intros H; [reflexivity|].
  simpl in H. apply andb_true_iff in H as [Hcl H].
  unfold plain_clause in Hcl. simpl.
  destruct (Shlex.shlex cl) as [toks|]; [|discriminate]. simpl.
  rewrite scan_plain_clause by assumption. simpl. now apply IH.
Qed.

(** When no clause of the filtered body has a token that reads [primary]
    or [foreign], Phase 2 changes nothing: the descriptors are built from
    what Phase 1 stored, in its order. *)
Theorem parse_without_keys_is_phase1
    (T : gset string)
    (filter_extraction : string -> list string -> list string * gmap string string * string)
    (Column_of_row : row -> result Column.t)
    (table_creation : string) (cols : list Column.t) (upheld : Upheld.t)
    (shlexed keys : list string) (paren_wrap : gmap string string) (filtered : string) :
  basic_extract T table_creation = Ok (cols, upheld) ->
  Shlex.shlex (body_of table_creation) = Ok shlexed ->
  filter_extraction (body_of table_creation) shlexed = (keys, paren_wrap, filtered) ->
  forallb plain_clause (Str.split "," filtered) = true ->
  extract_table T filter_extraction Column_of_row table_creation
  = build_columns Column_of_row cols (Upheld.values upheld).
Proof.
  intros Hbasic Hlex Hfe Hplain. unfold extract_table.
  rewrite Hbasic. simpl. rewrite Hlex. simpl. rewrite Hfe.
  now rewrite scan_plain_clauses.
Qed.

Lemma parse_without_keys_is_phase1_witness :
  parse "create table t (a integer not null, b text unique)"
  = build_columns (Absent.Column_of_row Absent.is_integer_type "cascade") []
      (Upheld.values
         [("a", row_of_inline "a" "integer" (mkInline None None false false true false));
          ("b", row_of_inline "b" "text" (mkInline None None false false false true))]).
Proof.
  unfold parse.
  eapply (parse_without_keys_is_phase1 Absent.SQLITETYPES Absent.filter_extraction).
  - vm_compute; reflexivity.
  - vm_compute; reflexivity.
  - vm_compute; reflexivity.
  - vm_compute; reflexivity.
Defined.

Lemma not_action_keyword (t : string) :
  not_an_action_keyword t = true ->
  String.eqb t "delete" = false /\ String.eqb t "update" = false.
Proof.
  unfold not_an_action_keyword. intros H. apply andb_true_iff in H as [Hd Hu].
  now apply negb_true_iff in Hd, Hu.
Qed.

Lemma update_of_stored (u : Upheld.t) (key : string) (v : row) (f : row -> row) :
  Upheld.get u key = Ok v -> Upheld.update u key f = Ok (Upheld.set u key (f v)).
Proof. intros H. unfold Upheld.update. now rewrite H. Qed.

(** The table-level foreign-key clause the generator writes, once its two
    groups are wrapped, is read back in full: the named column gets the
    foreign flag, the source [table/column], and the two actions appended in
    the order delete, update. The table and the placeholders must not read
    [delete] or [update], nor the delete action [update], because the
    actions are found by the first token equal to the keyword. *)
Theorem foreign_key_clause_is_read_back
    (paren_wrap : gmap string string) (k1 tb k2 on_delete on_update name col : string)
    (upheld : Upheld.t) (r : row) :
  Str.startswith "wrap" k1 = true ->
  paren_wrap !! (":" ++ k1) = Some ("(" ++ name ++ ")") ->
  paren_wrap !! (":" ++ k2) = Some ("(" ++ col ++ ")") ->
  Upheld.get upheld name = Ok r ->
  forallb not_an_action_keyword [k1; tb; k2] = true ->
  String.eqb on_delete "update" = false ->
  on_foreign paren_wrap (foreign_key_tokens k1 tb k2 on_delete on_update) 0 upheld
  = Ok (Upheld.set upheld name
          (append_action on_update
             (append_action on_delete (set_foreign (tb ++ "/" ++ col) r)))).
Proof.
  intros Hk1 Hw1 Hw2 Hget Hplain Hdel.
  simpl in Hplain. rewrite andb_true_r in Hplain.
  apply andb_true_iff in Hplain as [P1 Hplain]. apply andb_true_iff in Hplain as [P2 P3].
  apply not_action_keyword in P1 as [D1 U1], P2 as [D2 U2], P3 as [D3 U3].
  set (cs := foreign_key_tokens k1 tb k2 on_delete on_update).
  assert (Hwa : wrap_after paren_wrap cs 0 = Ok ("(" ++ name ++ ")")).
  { unfold wrap_after, cs, foreign_key_tokens.
    cbn [PyList.slice2 skipn firstn Nat.add Str.join].
    change (Str.startswith ":wrap" (":" ++ "" ++ k1)) with (Str.startswith "wrap" k1).
    rewrite Hk1. unfold wrap_get.
    change (":" ++ "" ++ k1) with (":" ++ k1). now rewrite Hw1. }
  assert (Hk2 : PyList.get cs (Z.of_nat (0 + 2 + 3 + 1 + 1)) = Ok k2) by reflexivity.
  assert (Htb : PyList.get cs (Z.of_nat (0 + 2 + 3)) = Ok tb) by reflexivity.
  assert (Hwk2 : wrap_get paren_wrap (":" ++ k2) = Ok ("(" ++ col ++ ")"))
    by (unfold wrap_get; now rewrite Hw2).
  assert (Hname : (if Str.startswith "(" ("(" ++ name ++ ")")
                   then Str.strip_ends ("(" ++ name ++ ")") else "(" ++ name ++ ")") = name).
  { change (Str.startswith "(" ("(" ++ name ++ ")")) with true. cbv iota.
    apply (strip_ends_between "(" ")" name). }
  assert (Hcol : Str.strip_ends ("(" ++ col ++ ")") = col)
    by apply (strip_ends_between "(" ")" col).
  assert (Hmem : forall kw, kw = "delete" \/ kw = "update" -> PyList.mem kw cs = true).
  { intros kw Hkw. unfold PyList.mem. apply existsb_exists. exists kw.
    split; [|apply String.eqb_refl]. destruct Hkw as [-> | ->]; simpl; tauto. }
  assert (Hid : PyList.index "delete" cs = Ok 9%Z).
  { unfold PyList.index, cs, foreign_key_tokens. simpl. now rewrite D1, D2, D3. }
  assert (Hiu : PyList.index "update" cs = Ok 12%Z).
  { unfold PyList.index, cs, foreign_key_tokens. simpl. now rewrite U1, U2, U3, Hdel. }
  assert (Had : PyList.get cs (9 + 1)%Z = Ok on_delete) by reflexivity.
  assert (Hau : PyList.get cs (12 + 1)%Z = Ok on_update) by reflexivity.
  clearbody cs.
  unfold on_foreign. cbv zeta.
  rewrite Hwa. cbn [bind]. rewrite Hk2. cbn [bind]. rewrite Hwk2. cbn [bind].
  rewrite Htb. cbn [bind]. rewrite Hname, Hcol.
  rewrite (update_of_stored _ _ _ _ Hget). cbn [bind].
  unfold record_action.
  rewrite (Hmem "delete") by now left.
  rewrite Hid. cbn [bind]. rewrite get_set_same. cbn [bind]. rewrite Had. cbn [bind].
  rewrite (update_of_stored _ _ _ _ (get_set_same _ _ _)). cbn [bind].
  rewrite set_set.
  rewrite (Hmem "update") by now right.
  rewrite Hiu. cbn [bind]. rewrite get_set_same. cbn [bind]. rewrite Hau. cbn [bind].
  rewrite (update_of_stored _ _ _ _ (get_set_same _ _ _)). cbn [bind].
  now rewrite set_set.
Qed.

Lemma foreign_key_clause_is_read_back_witness :
  on_foreign {[ ":wrap1" := "(u)"; ":wrap2" := "(id)" ]}
    (foreign_key_tokens "wrap1" "users" "wrap2" "cascade" "restrict") 0
    [("u", bare_row "u" "integer")]
  = Ok (Upheld.set [("u", bare_row "u" "integer")] "u"
          (append_action "restrict"
             (append_action "cascade" (set_foreign ("users" ++ "/" ++ "id")
                                                   (bare_row "u" "integer"))))).
Proof.
  apply (foreign_key_clause_is_read_back _ "wrap1" "users" "wrap2" "cascade" "restrict"
           "u" "id"); vm_compute; reflexivity.
Defined.

(** A [foreign] keyword that fewer than six tokens follow raises
    [IndexError], whatever the clause is: a table-level constraint or a
    column definition in which the word occurs. *)
Theorem foreign_keyword_needs_six_tokens
    (paren_wrap : gmap string string) (column_shlexed : list string) (tindex : nat)
    (wrap : string) (upheld : Upheld.t) :
  wrap_after paren_wrap column_shlexed tindex = Ok wrap ->
  (length column_shlexed <= tindex + 7)%nat ->
  on_foreign paren_wrap column_shlexed tindex upheld = Raise IndexError.
Proof.
  intros Hwrap Hlen. unfold on_foreign. rewrite Hwrap. cbn [bind].
  replace (PyList.get column_shlexed (Z.of_nat (tindex + 2 + 3 + 1 + 1)))
    with (@Raise string IndexError); [reflexivity|].
  unfold PyList.get.
  destruct (Z.ltb_spec (Z.of_nat (tindex + 2 + 3 + 1 + 1)) 0) as [Hneg|Hpos]; [lia|].
  rewrite Nat2Z.id.
  replace (nth_error column_shlexed (tindex + 2 + 3 + 1 + 1)) with (@None string);
    [destruct (Z.of_nat _ <? 0)%Z; reflexivity|].
  symmetry. apply nth_error_None. lia.
Qed.

Lemma foreign_keyword_needs_six_tokens_witness :
  on_foreign ∅ ["foreign"; "key"; "("; "a"; ")"; "references"; "t"] 0
    [("a", bare_row "a" "integer")] = Raise IndexError.
Proof.
  apply (foreign_keyword_needs_six_tokens _ _ _ "(a").
  - vm_compute; reflexivity.
  - simpl. lia.
Defined.

(** * The single-column generator *)

(** For a column without target, [extract_single_column] writes what the
    table generator writes for the column under its own type name, except
    that the primary-key marker is glued to the text before it, with no
    blank, and [auto_increment] is never written. *)
Theorem single_column_text (c : Column.t) :
  Column.reference c = None ->
  " " ++ extract_single_column c =
  column_text c (Column.type c) ++ (if Column.primary c then "primary key" else "").
Proof.
  intros Href. unfold extract_single_column, Column.foreign, column_text. rewrite Href.
  destruct (negb (Column.nullable c)), (Column.unique c),
    (PyVal.truthy (Column.default c)), (Column.primary c);
    repeat rewrite ?str_app_assoc, ?str_app_nil_r; reflexivity.
Qed.

Lemma single_column_text_witness :
  " " ++ extract_single_column Sample.sole_primary =
  column_text Sample.sole_primary "integer" ++ "primary key".
Proof.
  apply (single_column_text Sample.sole_primary). reflexivity.
Defined.

(** * Phase 1 reads back what the generator writes for plain columns *)

Lemma wordchar_is_no_separator (c : ascii) :
  Shlex.is_wordchar c = true ->
  Shlex.is_whitespace c = false /\ Shlex.is_commenter c = false.
Proof.
  destruct c as [[] [] [] [] [] [] [] []]; vm_compute; intros H;
    first [discriminate H | split; reflexivity].
Qed.

Lemma lex_word_to_end (w : string) :
  forall tok : string,
    all_chars Shlex.is_wordchar w = true ->
    Shlex.lex Shlex.Word tok w = Ok [tok ++ w].
Proof.
  induction w as [|c w IH]; intros tok H.
  - simpl. now rewrite str_app_nil_r.
  - simpl in H. apply andb_true_iff in H as [Hc Hw].
    destruct (wordchar_is_no_separator c Hc) as [Hws Hcm].
    cbn [Shlex.lex]. rewrite Hws, Hcm, Hc. cbn [orb].
    rewrite IH by assumption. unfold Shlex.snoc. now rewrite str_app_assoc.
Qed.

Lemma lex_word_then_blank (w rest : string) :
  forall tok : string,
    all_chars Shlex.is_wordchar w = true ->
    Shlex.lex Shlex.Word tok (w ++ String " " rest) =
    let* toks := Shlex.lex Shlex.Blank "" rest in Ok ((tok ++ w) :: toks).
Proof.
  induction w as [|c w IH]; intros tok H.
  - cbn [String.append Shlex.lex]. change (Shlex.is_whitespace " ") with true. cbv iota.
    now rewrite str_app_nil_r.
  - simpl in H. apply andb_true_iff in H as [Hc Hw].
    destruct (wordchar_is_no_separator c Hc) as [Hws Hcm].
    rewrite str_app_cons. cbn [Shlex.lex]. rewrite Hws, Hcm, Hc. cbn [orb].
    rewrite IH by assumption. unfold Shlex.snoc. now rewrite str_app_assoc.
Qed.

(** A word at the start of a text, after blanks or not, is one token. *)
Lemma lex_word_first (w rest : string) :
  is_word w = true ->
  Shlex.lex Shlex.Blank "" (w ++ String " " rest) =
  let* toks := Shlex.lex Shlex.Blank "" rest in Ok (w :: toks).
Proof.
  unfold is_word. intros H. apply andb_true_iff in H as [Hne Hall].
  destruct w as [|c w]; [discriminate|]. simpl in Hall.
  apply andb_true_iff in Hall as [Hc Hw].
  destruct (wordchar_is_no_separator c Hc) as [Hws Hcm].
  rewrite str_app_cons. cbn [Shlex.lex]. rewrite Hws, Hcm, Hc.
  now rewrite lex_word_then_blank.
Qed.

Lemma lex_word_last (w : string) :
  is_word w = true -> Shlex.lex Shlex.Blank "" w = Ok [w].
Proof.
  unfold is_word. intros H. apply andb_true_iff in H as [Hne Hall].
  destruct w as [|c w]; [discriminate|]. simpl in Hall.
  apply andb_true_iff in Hall as [Hc Hw].
  destruct (wordchar_is_no_separator c Hc) as [Hws Hcm].
  cbn [Shlex.lex]. rewrite Hws, Hcm, Hc.
  now rewrite lex_word_to_end.
Qed.

(** The lexer on the text of a plain column definition. *)
Lemma shlex_column_text (c : Column.t) (ctype : string) :
  is_word (Column.name c) = true ->
  is_word ctype = true ->
  PyVal.truthy (Column.default c) = false ->
  Shlex.shlex (column_text c ctype) =
  Ok (definition_tokens (Column.name c) ctype (Column.nullable c) (Column.unique c)).
Proof.
  intros Hname Htype Hdef. unfold Shlex.shlex, column_text, definition_tokens.
  rewrite Hdef. rewrite str_app_nil_r.
  change (" " ++ Column.name c ++ " " ++ ctype
            ++ (if negb (Column.nullable c) then " not null" else "")
            ++ (if Column.unique c then " unique" else ""))
    with (String " " (Column.name c ++ String " " (ctype
            ++ (if negb (Column.nullable c) then " not null" else "")
            ++ (if Column.unique c then " unique" else "")))).
  cbn [Shlex.lex]. change (Shlex.is_whitespace " ") with true. cbv iota.
  rewrite lex_word_first by assumption.
  destruct (Column.nullable c), (Column.unique c); cbn [negb].
  - change (ctype ++ "" ++ " unique") with (ctype ++ String " " "unique").
    now rewrite lex_word_first.
  - change (ctype ++ "" ++ "") with (ctype ++ "").
    rewrite str_app_nil_r. now rewrite lex_word_last.
  - change (ctype ++ " not null" ++ " unique") with (ctype ++ String " " "not null unique").
    now rewrite lex_word_first.
  - change (ctype ++ " not null" ++ "") with (ctype ++ String " " "not null").
    now rewrite lex_word_first.
Qed.

Lemma inline_token_plain (base_columns : list string) (token : string) (st : inline) :
  phase1_keyword token = false -> inline_token base_columns token st = Ok st.
Proof.
  unfold phase1_keyword. intros H.
  apply orb_false_iff in H as [H H6]. apply orb_false_iff in H as [H H5].
  apply orb_false_iff in H as [H H4]. apply orb_false_iff in H as [H H3].
  apply orb_false_iff in H as [H1 H2].
  unfold inline_token. rewrite H1, H2, H3, H4, H5, H6. reflexivity.
Qed.

Lemma not_keyword_not_null (t : string) :
  phase1_keyword t = false -> String.eqb t "null" = false.
Proof.
  intros H. destruct (String.eqb_spec t "null") as [->|]; [discriminate H | reflexivity].
Qed.

(** The inline scan on the tokens of a plain definition. *)
Lemma inline_tokens_plain_definition (name ctype : string) (nullable unique : bool) :
  phase1_keyword name = false ->
  phase1_keyword ctype = false ->
  inline_tokens (definition_tokens name ctype nullable unique)
                (definition_tokens name ctype nullable unique) inline0
  = Ok (mkInline None None false false (negb nullable) unique).
Proof.
  intros Hname Htype.
  pose proof (not_keyword_not_null name Hname) as Nn.
  pose proof (not_keyword_not_null ctype Htype) as Nt.
  unfold definition_tokens.
  destruct nullable, unique; cbn [app inline_tokens negb];
    rewrite (inline_token_plain _ name) by assumption; cbn [bind];
    rewrite (inline_token_plain _ ctype) by assumption; cbn [bind];
    try reflexivity;
    rewrite (inline_token_plain _ "not") by reflexivity; cbn [bind].
  - assert (Hnull : forall bc_tail st,
              inline_token (name :: ctype :: "not" :: "null" :: bc_tail) "null" st
              = Ok (mkInline (i_defaults st) (i_sources st) (i_primary st) (i_foreign st)
                             true (i_unique st))).
    { intros bc_tail st. unfold inline_token. unfold PyList.index.
      cbn [PyList.index_from]. rewrite Nn, Nt. reflexivity. }
    rewrite Hnull. reflexivity.
  - assert (Hnull : forall bc_tail st,
              inline_token (name :: ctype :: "not" :: "null" :: bc_tail) "null" st
              = Ok (mkInline (i_defaults st) (i_sources st) (i_primary st) (i_foreign st)
                             true (i_unique st))).
    { intros bc_tail st. unfold inline_token. unfold PyList.index.
      cbn [PyList.index_from]. rewrite Nn, Nt. reflexivity. }
    rewrite Hnull. reflexivity.
Qed.

(** One turn of the Phase 1 loop on a plain definition. *)
Lemma phase1_stores_plain_definition
    (T : gset string) (frag name ctype : string) (nullable unique : bool)
    (rest : list string) (u : Upheld.t) :
  Shlex.shlex frag = Ok (definition_tokens name ctype nullable unique) ->
  ctype ∈ T ->
  phase1_keyword name = false ->
  phase1_keyword ctype = false ->
  basic_extract_loop T (frag :: rest) u =
  basic_extract_loop T rest
    (Upheld.set u name (mkRow name ctype false None false unique nullable None [])).
Proof.
  intros Hlex Hty Hname Htype. cbn [basic_extract_loop]. rewrite Hlex. cbn [bind].
  change (PyList.get (definition_tokens name ctype nullable unique) 1) with (@Ok string ctype).
  cbn [bind]. rewrite (bool_decide_eq_true_2 _ Hty). cbn [negb].
  change (PyList.get (definition_tokens name ctype nullable unique) 0) with (@Ok string name).
  cbn [bind].
  rewrite inline_tokens_plain_definition by assumption. cbn [bind].
  destruct nullable, unique; reflexivity.
Qed.

Lemma contains_app (c : ascii) (a b : string) :
  PyVal.contains c (a ++ b) = PyVal.contains c a || PyVal.contains c b.
Proof.
  induction a as [|x a IH]; [reflexivity|].
  rewrite str_app_cons. simpl. rewrite IH. now rewrite orb_assoc.
Qed.

Lemma wordchar_is_no_comma (c : ascii) :
  Shlex.is_wordchar c = true -> Ascii.eqb c "," = false.
Proof.
  destruct c as [[] [] [] [] [] [] [] []]; vm_compute; intros H;
    first [discriminate H | reflexivity].
Qed.

Lemma word_has_no_comma (w : string) : is_word w = true -> PyVal.contains "," w = false.
Proof.
  unfold is_word. intros H. apply andb_true_iff in H as [_ H].
  induction w as [|c w IH]; [reflexivity|].
  simpl in H. apply andb_true_iff in H as [Hc Hw].
  simpl. rewrite (wordchar_is_no_comma c Hc). now apply IH.
Qed.

Lemma split_without_separator (s : string) :
  PyVal.contains "," s = false -> Str.split "," s = [s].
Proof.
  induction s as [|a s IH]; intros H; [reflexivity|].
  simpl in H. apply orb_false_iff in H as [Ha Hs].
  cbn [Str.split]. rewrite Ha. now rewrite IH.
Qed.

Lemma split_at_first_separator (a b : string) :
  PyVal.contains "," a = false ->
  Str.split "," (a ++ String "," b) = a :: Str.split "," b.
Proof.
  induction a as [|x a IH]; intros H.
  - reflexivity.
  - simpl in H. apply orb_false_iff in H as [Hx Ha].
    rewrite str_app_cons. cbn [Str.split]. rewrite Hx. now rewrite IH.
Qed.

Lemma take_all_but_last_app (a w : string) :
  w <> "" ->
  Str.take (String.length (a ++ w) - 1) (a ++ w) = a ++ Str.take (String.length w - 1) w.
Proof.
  intros Hw. induction a as [|x a IH]; [reflexivity|].
  rewrite !str_app_cons. cbn [String.length].
  replace (S (String.length (a ++ w)) - 1)%nat with (S (String.length (a ++ w) - 1)).
  - cbn [Str.take]. now rewrite IH.
  - rewrite str_length_app. destruct w; [congruence|]. simpl. lia.
Qed.

Lemma strip_ends_after_first (c : ascii) (z : string) :
  Str.strip_ends (String c z) = Str.take (String.length z - 1) z.
Proof.
  unfold Str.strip_ends, Str.slice_to_last. cbn [String.length Str.drop].
  f_equal. lia.
Qed.

(** Cutting at the commas the text made of comma-free pieces, each closed
    by a comma, the last comma removed, gives the pieces back. *)
Lemma split_of_closed_pieces (l : list string) :
  forall x : string,
    PyVal.contains "," x = false ->
    Forall (fun t => PyVal.contains "," t = false) l ->
    Str.split ","
      (Str.take (String.length (concat_text (map (fun t => t ++ ",") (x :: l))) - 1)
                (concat_text (map (fun t => t ++ ",") (x :: l))))
    = x :: l.
Proof.
  induction l as [|y l IH]; intros x Hx Hl.
  - unfold concat_text. cbn [map fold_right]. rewrite str_app_nil_r.
    rewrite str_length_app. cbn [String.length].
    replace (String.length x + 1 - 1)%nat with (String.length x) by lia.
    rewrite str_take_app. now apply split_without_separator.
  - inversion Hl as [|? ? Hy Hl']; subst.
    change (concat_text (map (fun t => t ++ ",") (x :: y :: l)))
      with ((x ++ ",") ++ concat_text (map (fun t => t ++ ",") (y :: l))).
    rewrite take_all_but_last_app.
    + rewrite str_app_assoc. change ("," ++ ?z) with (String "," z).
      rewrite split_at_first_separator by assumption.
      now rewrite IH.
    + unfold concat_text. cbn [map fold_right]. destruct y; discriminate.
Qed.

Lemma column_text_has_no_comma (c : Column.t) (ctype : string) :
  is_word (Column.name c) = true ->
  is_word ctype = true ->
  PyVal.truthy (Column.default c) = false ->
  PyVal.contains "," (column_text c ctype) = false.
Proof.
  intros Hname Htype Hdef. unfold column_text. rewrite Hdef.
  rewrite !contains_app, (word_has_no_comma _ Hname), (word_has_no_comma _ Htype).
  destruct (negb (Column.nullable c)), (Column.unique c); reflexivity.
Qed.

Lemma plain_column_facts (T : gset string) (maps : gmap string string) (c : Column.t) :
  plain_column T maps c = true ->
  is_word (Column.name c) = true
  /\ is_word (dict_get maps (Column.type c) (Column.type c)) = true
  /\ dict_get maps (Column.type c) (Column.type c) ∈ T
  /\ phase1_keyword (Column.name c) = false
  /\ phase1_keyword (dict_get maps (Column.type c) (Column.type c)) = false
  /\ PyVal.truthy (Column.default c) = false
  /\ Column.primary c = false
  /\ truthy_opt (Column.raw_source c) = false.
Proof.
  unfold plain_column. intros H.
  repeat match type of H with
         | _ && _ = true => let H' := fresh in apply andb_true_iff in H as [H H']
         end.
  repeat match goal with
         | E : negb _ = true |- _ => apply negb_true_iff in E
         | E : bool_decide _ = true |- _ => apply bool_decide_eq_true_1 in E
         end.
  repeat split; assumption.
Qed.

(** For plain columns the generator writes column definitions only. *)
Lemma clauses_of_plain_columns (T : gset string) (maps : gmap string string)
    (SA : gmap string string) (cols : list Column.t) :
  forallb (plain_column T maps) cols = true ->
  map (render SA) (clauses_spec maps cols) =
  map (fun t => t ++ ",")
      (map (fun c => column_text c (dict_get maps (Column.type c) (Column.type c))) cols).
Proof.
  intros Hplain.
  assert (Hfacts : Forall (fun c => Column.primary c = false
                                    /\ truthy_opt (Column.raw_source c) = false) cols).
  { apply Forall_forall. intros c Hin.
    assert (Hc : plain_column T maps c = true).
    { rewrite forallb_forall in Hplain. apply Hplain. now apply list_elem_of_In. }
    apply plain_column_facts in Hc. tauto. }
  assert (Hcount : primary_count cols = 0%nat).
  { unfold primary_count. induction Hfacts as [|c l [Hp _] _ IH]; [reflexivity|].
    rewrite filter_cons. rewrite Hp.
    destruct (decide (false = true)); [discriminate|]. apply IH.
    simpl in Hplain. now apply andb_true_iff in Hplain as [_ ?]. }
  assert (Htargets : filter has_target cols = []).
  { clear Hcount. induction Hfacts as [|c l [_ Ht] _ IH]; [reflexivity|].
    rewrite filter_cons.
    destruct (decide (has_target c)) as [Hin|_]; [unfold has_target in Hin; congruence|].
    apply IH.
    simpl in Hplain. now apply andb_true_iff in Hplain as [_ ?]. }
  unfold clauses_spec, table_primary_key, table_foreign_keys, column_defs.
  rewrite Hcount, Htargets. cbn [Nat.leb map app]. rewrite !app_nil_r, !map_map.
  apply map_ext. intros c. cbn [render]. rewrite andb_false_r. reflexivity.
Qed.

Lemma phase1_loop_over_plain (T : gset string) (maps : gmap string string)
    (cols : list Column.t) :
  forall (frags : list string) (u : Upheld.t),
    forallb (plain_column T maps) cols = true ->
    Forall2 (fun frag c =>
               Shlex.shlex frag =
               Shlex.shlex (column_text c (dict_get maps (Column.type c) (Column.type c))))
            frags cols ->
    basic_extract_loop T frags u =
    Ok (fold_left (fun u c => Upheld.set u (Column.name c) (recovered maps c)) cols u).
Proof.
  induction cols as [|c cols IH]; intros frags u Hplain Hfr.
  - inversion Hfr; subst. reflexivity.
  - inversion Hfr as [|frag ? frags' ? Hlex Hrest]; subst.
    simpl in Hplain. apply andb_true_iff in Hplain as [Hc Hplain].
    destruct (plain_column_facts T maps c Hc)
      as (Hname & Htype & Hty & Kn & Kt & Hdef & Hprim & Href).
    rewrite shlex_column_text in Hlex by assumption.
    rewrite (phase1_stores_plain_definition T frag _ _ _ _ frags' u Hlex Hty Kn Kt).
    cbn [fold_left]. now apply IH.
Qed.

(** Phase 1 reads back what the generator writes for a non-empty list of
    plain columns: every column is stored under its name, in input order,
    with its resolved type and its nullable and unique flags, and nothing
    else set. *)
Theorem phase1_reads_back_plain_columns
    (T : gset string) (DM SA : gmap string string) (override : option (gmap string string))
    (pre : string) (c : Column.t) (cols : list Column.t) :
  PyVal.contains "(" pre = false ->
  forallb (plain_column T (_get_type_mappings DM override)) (c :: cols) = true ->
  basic_extract T
    (pre ++ "(" ++ extract_table_creations DM SA (c :: cols) override ++ ")")
  = Ok ([], fold_left (fun u c => Upheld.set u (Column.name c)
                                    (recovered (_get_type_mappings DM override) c))
                      (c :: cols) []).
Proof.
  intros Hpre Hplain. set (maps := _get_type_mappings DM override) in *.
  unfold basic_extract.
  rewrite (body_of_wrapped pre _ ")" Hpre).
  rewrite generator_refines_spec. fold maps.
  rewrite (clauses_of_plain_columns T maps SA (c :: cols) Hplain).
  pose proof Hplain as Hall. simpl in Hall. apply andb_true_iff in Hall as [Hc Hcols].
  destruct (plain_column_facts T maps c Hc)
    as (Hname & Htype & Hty & Kn & Kt & Hdef & Hprim & Href).
  assert (Hfree : Forall (fun t => PyVal.contains "," t = false)
                         (map (fun c => column_text c (dict_get maps (Column.type c)
                                                                (Column.type c))) cols)).
  { apply Forall_map, Forall_forall. intros d Hd.
    assert (Hd' : plain_column T maps d = true).
    { rewrite forallb_forall in Hcols. apply Hcols. now apply list_elem_of_In. }
    destruct (plain_column_facts T maps d Hd') as (? & ? & _ & _ & _ & ? & _).
    now apply column_text_has_no_comma. }
  remember (dict_get maps (Column.type c) (Column.type c)) as ctype eqn:Ectype.
  assert (Hfirst : column_text c ctype = String " " (Str.drop 1 (column_text c ctype)))
    by reflexivity.
  assert (Hfree1 : PyVal.contains "," (Str.drop 1 (column_text c ctype)) = false).
  { pose proof (column_text_has_no_comma c ctype Hname Htype Hdef) as H.
    rewrite Hfirst in H. simpl in H. exact H. }
  assert (Hacc :
    concat_text
      (map (fun t => t ++ ",")
           (map (fun c => column_text c (dict_get maps (Column.type c) (Column.type c)))
                (c :: cols)))
    = String " "
        (concat_text
           (map (fun t => t ++ ",")
                (Str.drop 1 (column_text c ctype)
                   :: map (fun c => column_text c (dict_get maps (Column.type c)
                                                           (Column.type c))) cols)))).
  { rewrite Ectype. reflexivity. }
  rewrite Hacc, strip_ends_after_first.
  rewrite (split_of_closed_pieces _ _ Hfree1 Hfree).
  rewrite (phase1_loop_over_plain T maps (c :: cols) _ [] Hplain); [reflexivity|].
  constructor.
  - rewrite <- Ectype. rewrite Hfirst at 2. reflexivity.
  - clear. induction cols as [|d cols IH]; constructor; [reflexivity | exact IH].
Qed.

Lemma phase1_reads_back_plain_columns_witness :
  basic_extract Absent.SQLITETYPES
    ("create table t " ++ "("
       ++ extract_table_creations Absent.DEFAULT_MAPPINGS Absent.SQL_ACTIONS
            [Sample.plain "a" "integer"; Sample.strict] None
       ++ ")")
  = Ok ([], fold_left (fun u c => Upheld.set u (Column.name c)
                                    (recovered (_get_type_mappings Absent.DEFAULT_MAPPINGS None) c))
                      [Sample.plain "a" "integer"; Sample.strict] []).
Proof.
  apply (phase1_reads_back_plain_columns Absent.SQLITETYPES Absent.DEFAULT_MAPPINGS
           Absent.SQL_ACTIONS None "create table t " (Sample.plain "a" "integer")
           [Sample.strict]).
  - reflexivity.
  - vm_compute; reflexivity.
Defined.

(** * The parser as a whole *)

Lemma build_columns_length (Column_of_row : row -> result Column.t) (rows : list row) :
  forall cols result_ : list Column.t,
    build_columns Column_of_row cols rows = Ok result_ ->
    length result_ = (length cols + length rows)%nat.
Proof.
  induction rows as [|r rows IH]; intros cols result_ H.
  - simpl in H. inversion H; subst. simpl. lia.
  - simpl in H. destruct (Column_of_row r) as [c|]; [|discriminate]. simpl in H.
    apply IH in H. rewrite H, length_app. simpl. lia.
Qed.

(** When the parser returns, it returns one descriptor per column Phase 1
    stored, whatever the table-level clauses are: Phase 2 can neither add a
    column nor drop one. *)
Theorem parse_returns_one_descriptor_per_column
    (T : gset string)
    (filter_extraction : string -> list string -> list string * gmap string string * string)
    (Column_of_row : row -> result Column.t)
    (table_creation : string) (cols : list Column.t) (upheld : Upheld.t)
    (result_ : list Column.t) :
  basic_extract T table_creation = Ok (cols, upheld) ->
  extract_table T filter_extraction Column_of_row table_creation = Ok result_ ->
  length result_ = length upheld.
Proof.
  intros Hbasic Hparse.
  assert (cols = []) as ->
    by exact (phase1_returns_no_descriptor T table_creation cols upheld Hbasic).
  unfold extract_table in Hparse. rewrite Hbasic in Hparse. cbn [bind] in Hparse.
  destruct (Shlex.shlex (body_of table_creation)) as [shlexed|]; [|discriminate].
  cbn [bind] in Hparse.
  destruct (filter_extraction _ shlexed) as [[keys paren_wrap] filtered].
  destruct (scan_clauses paren_wrap _ upheld) as [u'|] eqn:Hscan; [|discriminate].
  cbn [bind] in Hparse.
  apply build_columns_length in Hparse.
  apply (scan_clauses_keeps_readings frame_of (fun r => eq_refl) (fun s r => eq_refl)
           (fun a r => eq_refl)) in Hscan.
  apply (f_equal (@length _)) in Hscan.
  rewrite !length_map in Hscan.
  unfold Upheld.values in Hparse. rewrite length_map in Hparse. simpl in Hparse. lia.
Qed.

Lemma parse_returns_one_descriptor_per_column_witness :
  length [Sample.key_a; Sample.key_b]
  = length [("a", bare_row "a" "integer"); ("b", bare_row "b" "integer")].
Proof.
  apply (parse_returns_one_descriptor_per_column Absent.SQLITETYPES Absent.filter_extraction
           (Absent.Column_of_row Absent.is_integer_type "cascade")
           "create table t (a integer, b integer, primary key (a,b))" []).
  - vm_compute; reflexivity.
  - vm_compute; reflexivity.
Defined.
